(** * ChainLocks handler (src/llmq/quorums_chainlocks.cpp)

    A shallow embedding of [CChainLocksHandler]: the handler's members become
    a record [State], every method becomes a function from the state before
    the call to the state after it together with the calls it makes on its
    collaborators (an [Event] trace).  A method that can hit an [assert], a
    throwing [at()] or a null dereference returns in [Run]. *)

From Stdlib Require Import ZArith List Bool Lia String Sorted.
From stdpp Require Import base gmap list strings.
Import ListNotations.
Local Open Scope Z_scope.

(** ** Primitive data *)

(** [uint256]: a 256-bit value, read as a number; [uint256()] is zero. *)
Abbreviation uint256 := Z (only parsing).
Definition uint256_null : uint256 := 0.

(** [NodeId] is a 64-bit signed peer id; [-1] stands for "no peer". *)
Abbreviation NodeId := Z (only parsing).

(** The BLS threshold signature is opaque to the handler. *)
Abbreviation CBLSSignature := Z (only parsing).
Definition CBLSSignature_null : CBLSSignature := 0.

(** The 64-bit and 32-bit signed subtractions the handler performs on
    timestamps and heights, with two's complement wrap-around (what the
    compiled code does where C++ leaves the overflow undefined). *)
Definition wrap_signed (bits : Z) (z : Z) : Z :=
  (z + 2 ^ (bits - 1)) mod 2 ^ bits - 2 ^ (bits - 1).
Definition int64_sub (a b : Z) : Z := wrap_signed 64 (a - b).
Definition int32_sub (a b : Z) : Z := wrap_signed 32 (a - b).
Definition int64_range (z : Z) : Prop := - 2 ^ 63 <= z < 2 ^ 63.

(** A method either returns or takes the process down (failed [assert],
    uncaught [std::out_of_range], null dereference). *)
Inductive Run (A : Type) : Type :=
| Returns (a : A)
| Aborts.
Arguments Returns {A} a.
Arguments Aborts {A}.

Definition run_bind {A B} (m : Run A) (k : A -> Run B) : Run B :=
  match m with
  | Returns a => k a
  | Aborts => Aborts
  end.
Notation "'call' x <- m ; k" := (run_bind m (fun x => k))
  (at level 10, x name, m at level 100, k at level 200).

(** ** CChainLockSig *)

Record CChainLockSig := mkCChainLockSig {
  nHeight : Z;              (* int32_t nHeight{-1} *)
  blockHash : uint256;
  sig : CBLSSignature
}.

(** Modelled from the spec: the default-constructed [CChainLockSig()] of
    quorums_chainlocks.h (not in src): height [-1] (the "none" sentinel),
    null block hash, empty signature. *)
Definition CChainLockSig_default : CChainLockSig :=
  {| nHeight := -1; blockHash := uint256_null; sig := CBLSSignature_null |}.

Definition CChainLockSig_eqb (a b : CChainLockSig) : bool :=
  (nHeight a =? nHeight b) && (blockHash a =? blockHash b) && (sig a =? sig b).

(** ** Block index entries

    A [CBlockIndex] is owned by the chain engine.  The handler only reads its
    hash, its height and its [pprev] link, none of which change once the entry
    exists, so an entry is modelled by value together with its chain of
    predecessors.  The block index holds one entry per block hash, hence the
    pointer comparisons of the source are comparisons of hashes here. *)
#[warnings="-register-all"] Inductive CBlockIndex : Type := mkCBlockIndex {
  GetBlockHash : uint256;
  index_nHeight : Z;
  pprev : option CBlockIndex
}.

Definition same_index (a b : CBlockIndex) : bool :=
  GetBlockHash a =? GetBlockHash b.

Definition same_index_opt (a b : option CBlockIndex) : bool :=
  match a, b with
  | Some x, Some y => same_index x y
  | None, None => true
  | _, _ => false
  end.

Record CTransaction := mkCTransaction {
  tx_GetHash : uint256;
  tx_IsCoinBase : bool;
  tx_vin_empty : bool
}.

Record CBlock := mkCBlock {
  vtx : list CTransaction;
  nTime : Z                 (* uint32_t *)
}.

Record CRecoveredSig := mkCRecoveredSig {
  rs_id : uint256;
  rs_msgHash : uint256;
  rs_sig : CBLSSignature
}.

(** ** Constants *)

Definition CLSIG_REQUESTID_PREFIX : string := "clsig".

(** Modelled from the spec: the constants of quorums_chainlocks.h (not in
    src).  [CLEANUP_INTERVAL] (30 s) and [CLEANUP_SEEN_TIMEOUT] (1 hour) are
    compared with millisecond clocks, [WAIT_FOR_ISLOCK_TIMEOUT] (600 s) with
    the adjusted clock in seconds. *)
Definition CLEANUP_INTERVAL : Z := 1000 * 30.
Definition CLEANUP_SEEN_TIMEOUT : Z := 60 * 60 * 1000.
Definition WAIT_FOR_ISLOCK_TIMEOUT : Z := 10 * 60.

(** Modelled from the spec: the network message type [CLSIG] of protocol.h
    (not in src). *)
Definition NetMsgType_CLSIG : string := "clsig".

(** ** Calls on collaborators *)

(** The three closures the handler hands to the scheduler. *)
Inductive Task :=
| TaskPeriodic          (* Start: CheckActiveState; EnforceBestChainLock; TrySignChainTip *)
| TaskEnforce           (* ProcessNewChainLock: CheckActiveState; EnforceBestChainLock *)
| TaskTipUpdate.        (* UpdatedBlockTip: the three calls, then clear the flag *)

Inductive LogLine :=
| LogInvalidCLSIG
| LogReorgAttempt
| LogHeightMismatch
| LogProcessed
| LogHeaderLate
| LogTryingToSign
| LogBlockTxsNotFound
| LogInvalidates
| LogActivateFailed.

Inductive Event :=
| EvVerifyRecoveredSig (height : Z) (requestId msgHash : uint256) (s : CBLSSignature)
| EvMisbehaving (peer : NodeId) (howmuch : Z)
| EvRelayInv (hash : uint256)
| EvSchedule (t : Task) (delay : Z)
| EvAsyncSignIfMember (requestId msgHash : uint256)
| EvInvalidateBlock (b : CBlockIndex)
| EvResetBlockFailureFlags (b : CBlockIndex)
| EvActivateBestChain
| EvNotifyChainLock (b : CBlockIndex)
| EvRegisterRecoveredSigsListener
| EvUnregisterRecoveredSigsListener
| EvScheduleEvery (t : Task) (millis : Z)
| EvLog (l : LogLine).

(** What the collaborators answer during one call of a handler method.  The
    clocks are read once per call. *)
Record Env := mkEnv {
  GetTimeMillis : Z;
  GetAdjustedTime : Z;
  VerifyRecoveredSig : Z -> uint256 -> uint256 -> CBLSSignature -> bool;
  BlockIndex_find : uint256 -> option CBlockIndex;
  PrevBlockIndex : uint256 -> list CBlockIndex;
  ChainActive_Tip : CBlockIndex;
  ChainActive_Contains : CBlockIndex -> bool;
  IsValid : CBlockIndex -> bool;
  InvalidateBlock : CBlockIndex -> bool;
  ActivateBestChain : bool;
  ReadBlockFromDisk : CBlockIndex -> option CBlock;
  GetTransaction : uint256 -> option uint256;
  fMasternodeMode : bool;
  IsBlockchainSynced : bool;
  (* the tip as EnforceBestChainLock reads it after its invalidations, and
     again after ActivateBestChain *)
  ChainActive_Tip_invalidated : CBlockIndex;
  ChainActive_Tip_activated : CBlockIndex
}.

(** ** Handler state *)

Record State := mkState {
  seenChainLocks : gmap Z Z;
  bestChainLockHash : uint256;
  bestChainLock : CChainLockSig;
  bestChainLockWithKnownBlock : CChainLockSig;
  bestChainLockBlockIndex : option CBlockIndex;
  lastNotifyChainLockBlockIndex : option CBlockIndex;
  isSporkActive : bool;
  isEnforced : bool;
  tryLockChainTipScheduled : bool;
  lastSignedHeight : Z;
  lastSignedRequestId : uint256;
  lastSignedMsgHash : uint256;
  blockTxs : gmap Z (gset Z);
  txFirstSeenTime : gmap Z Z;
  lastCleanupTime : Z
}.

Definition set_seenChainLocks (v : gmap Z Z) (st : State) : State :=
  mkState v (bestChainLockHash st) (bestChainLock st)
    (bestChainLockWithKnownBlock st) (bestChainLockBlockIndex st)
    (lastNotifyChainLockBlockIndex st) (isSporkActive st) (isEnforced st)
    (tryLockChainTipScheduled st) (lastSignedHeight st)
    (lastSignedRequestId st) (lastSignedMsgHash st) (blockTxs st)
    (txFirstSeenTime st) (lastCleanupTime st).

(** [bestChainLockHash = hash; bestChainLock = clsig;] *)
Definition set_best (hash : uint256) (clsig : CChainLockSig) (st : State) : State :=
  mkState (seenChainLocks st) hash clsig
    (bestChainLockWithKnownBlock st) (bestChainLockBlockIndex st)
    (lastNotifyChainLockBlockIndex st) (isSporkActive st) (isEnforced st)
    (tryLockChainTipScheduled st) (lastSignedHeight st)
    (lastSignedRequestId st) (lastSignedMsgHash st) (blockTxs st)
    (txFirstSeenTime st) (lastCleanupTime st).

(** [bestChainLockWithKnownBlock = bestChainLock; bestChainLockBlockIndex = pindex;] *)
Definition set_known (pindex : CBlockIndex) (st : State) : State :=
  mkState (seenChainLocks st) (bestChainLockHash st) (bestChainLock st)
    (bestChainLock st) (Some pindex)
    (lastNotifyChainLockBlockIndex st) (isSporkActive st) (isEnforced st)
    (tryLockChainTipScheduled st) (lastSignedHeight st)
    (lastSignedRequestId st) (lastSignedMsgHash st) (blockTxs st)
    (txFirstSeenTime st) (lastCleanupTime st).

Definition set_lastNotify (p : option CBlockIndex) (st : State) : State :=
  mkState (seenChainLocks st) (bestChainLockHash st) (bestChainLock st)
    (bestChainLockWithKnownBlock st) (bestChainLockBlockIndex st)
    p (isSporkActive st) (isEnforced st)
    (tryLockChainTipScheduled st) (lastSignedHeight st)
    (lastSignedRequestId st) (lastSignedMsgHash st) (blockTxs st)
    (txFirstSeenTime st) (lastCleanupTime st).

Definition set_tryLockChainTipScheduled (b : bool) (st : State) : State :=
  mkState (seenChainLocks st) (bestChainLockHash st) (bestChainLock st)
    (bestChainLockWithKnownBlock st) (bestChainLockBlockIndex st)
    (lastNotifyChainLockBlockIndex st) (isSporkActive st) (isEnforced st)
    b (lastSignedHeight st)
    (lastSignedRequestId st) (lastSignedMsgHash st) (blockTxs st)
    (txFirstSeenTime st) (lastCleanupTime st).

Definition set_lastSigned (h : Z) (requestId msgHash : uint256) (st : State) : State :=
  mkState (seenChainLocks st) (bestChainLockHash st) (bestChainLock st)
    (bestChainLockWithKnownBlock st) (bestChainLockBlockIndex st)
    (lastNotifyChainLockBlockIndex st) (isSporkActive st) (isEnforced st)
    (tryLockChainTipScheduled st) h requestId msgHash (blockTxs st)
    (txFirstSeenTime st) (lastCleanupTime st).

Definition set_tracker (bt : gmap Z (gset Z)) (fs : gmap Z Z) (st : State) : State :=
  mkState (seenChainLocks st) (bestChainLockHash st) (bestChainLock st)
    (bestChainLockWithKnownBlock st) (bestChainLockBlockIndex st)
    (lastNotifyChainLockBlockIndex st) (isSporkActive st) (isEnforced st)
    (tryLockChainTipScheduled st) (lastSignedHeight st)
    (lastSignedRequestId st) (lastSignedMsgHash st) bt fs (lastCleanupTime st).

Definition set_lastCleanupTime (t : Z) (st : State) : State :=
  mkState (seenChainLocks st) (bestChainLockHash st) (bestChainLock st)
    (bestChainLockWithKnownBlock st) (bestChainLockBlockIndex st)
    (lastNotifyChainLockBlockIndex st) (isSporkActive st) (isEnforced st)
    (tryLockChainTipScheduled st) (lastSignedHeight st)
    (lastSignedRequestId st) (lastSignedMsgHash st) (blockTxs st)
    (txFirstSeenTime st) t.

(** Modelled from the spec: the freshly constructed handler.  The member
    initialisers live in quorums_chainlocks.h (not in src); the spec gives the
    registry its sentinel values ([height = -1], null hash, no block index)
    and the signer no proposal.  The two spork flags are written nowhere in the
    source, so the initial state is taken for either value of each. *)
Definition initial_state (spork enforced : bool) : State :=
  {| seenChainLocks := ∅;
     bestChainLockHash := uint256_null;
     bestChainLock := CChainLockSig_default;
     bestChainLockWithKnownBlock := CChainLockSig_default;
     bestChainLockBlockIndex := None;
     lastNotifyChainLockBlockIndex := None;
     isSporkActive := spork;
     isEnforced := enforced;
     tryLockChainTipScheduled := false;
     lastSignedHeight := -1;
     lastSignedRequestId := uint256_null;
     lastSignedMsgHash := uint256_null;
     blockTxs := ∅;
     txFirstSeenTime := ∅;
     lastCleanupTime := 0 |}.

(** [std::map::emplace]: inserts only when the key is absent. *)
Definition map_emplace {V} (k : Z) (v : V) (m : gmap Z V) : gmap Z V :=
  match m !! k with
  | Some _ => m
  | None => <[k := v]> m
  end.

(** ** Reference collaborators and sample data

    Stand-ins for the collaborators whose code is outside this file, and a
    small block tree, used to run the handler on concrete inputs. *)

(** A stand-in for the canonical serialization hash: injective on CLSIGs
    with 32-bit heights and, like a digest, never the all-zero value. *)
Definition stub_SerializeHash (c : CChainLockSig) : uint256 :=
  1 + (nHeight c + 2 ^ 31) + 2 ^ 32 * blockHash c + 2 ^ 288 * sig c.

Definition stub_SerializeHash_pair (prefix : string) (h : Z) : uint256 :=
  2 ^ 32 * Z.of_nat (String.length prefix) + (h + 2 ^ 31).

(** Modelled from the spec: the chain engine's ancestor-at-height query
    ("ancestor(target, h)", [CBlockIndex::GetAncestor] of chain.cpp, not in
    src): the entry of height [h] on the [pprev] path of [p], null when there
    is none. *)
Fixpoint walk_ancestor (p : CBlockIndex) (h : Z) : option CBlockIndex :=
  if h =? index_nHeight p then Some p
  else match pprev p with
       | Some q => walk_ancestor q h
       | None => None
       end.

(** The chain A <- B <- C and a sibling B' of B. *)
Definition block_A : CBlockIndex := mkCBlockIndex 10 0 None.
Definition block_B : CBlockIndex := mkCBlockIndex 11 1 (Some block_A).
Definition block_C : CBlockIndex := mkCBlockIndex 12 2 (Some block_B).
Definition block_B' : CBlockIndex := mkCBlockIndex 21 1 (Some block_A).

Definition sample_index : list CBlockIndex := [block_A; block_B; block_C; block_B'].

(** A synced masternode whose active chain is A <- B <- C, with a signer
    that accepts every signature; [known] says whether the block index
    answers lookups. *)
Definition sample_env (known : bool) : Env :=
  {| GetTimeMillis := 1000;
     GetAdjustedTime := 1000;
     VerifyRecoveredSig := fun _ _ _ _ => true;
     BlockIndex_find := fun h =>
       if known then List.find (fun b => GetBlockHash b =? h) sample_index
       else None;
     PrevBlockIndex := fun h =>
       List.filter (fun b => match pprev b with
                             | Some q => GetBlockHash q =? h
                             | None => false
                             end) sample_index;
     ChainActive_Tip := block_C;
     ChainActive_Contains := fun b =>
       existsb (same_index b) [block_A; block_B; block_C];
     IsValid := fun _ => true;
     InvalidateBlock := fun _ => true;
     ActivateBestChain := true;
     ReadBlockFromDisk := fun _ => None;
     GetTransaction := fun _ => None;
     fMasternodeMode := true;
     IsBlockchainSynced := true;
     ChainActive_Tip_invalidated := block_C;
     ChainActive_Tip_activated := block_C |}.

(** The same node with a signer that rejects every signature. *)
Definition rejecting_env : Env :=
  {| GetTimeMillis := 1000;
     GetAdjustedTime := 1000;
     VerifyRecoveredSig := fun _ _ _ _ => false;
     BlockIndex_find := BlockIndex_find (sample_env true);
     PrevBlockIndex := PrevBlockIndex (sample_env true);
     ChainActive_Tip := block_C;
     ChainActive_Contains := ChainActive_Contains (sample_env true);
     IsValid := fun _ => true;
     InvalidateBlock := fun _ => true;
     ActivateBestChain := true;
     ReadBlockFromDisk := fun _ => None;
     GetTransaction := fun _ => None;
     fMasternodeMode := true;
     IsBlockchainSynced := true;
     ChainActive_Tip_invalidated := block_C;
     ChainActive_Tip_activated := block_C |}.

Definition clsig_at (h : Z) (bh : uint256) : CChainLockSig :=
  {| nHeight := h; blockHash := bh; sig := 1 |}.

(** An enforcing handler whose best lock is bound to block C. *)
Definition state_locked_C : State :=
  {| seenChainLocks := {[ stub_SerializeHash (clsig_at 2 12) := 900 ]};
     bestChainLockHash := stub_SerializeHash (clsig_at 2 12);
     bestChainLock := clsig_at 2 12;
     bestChainLockWithKnownBlock := clsig_at 2 12;
     bestChainLockBlockIndex := Some block_C;
     lastNotifyChainLockBlockIndex := None;
     isSporkActive := true;
     isEnforced := true;
     tryLockChainTipScheduled := false;
     lastSignedHeight := -1;
     lastSignedRequestId := uint256_null;
     lastSignedMsgHash := uint256_null;
     blockTxs := ∅;
     txFirstSeenTime := ∅;
     lastCleanupTime := 0 |}.

(** A signer-side state: spork on, nothing locked or signed yet, the tip
    block C tracked with one transaction (txid 7) first seen at the current
    adjusted time. *)
Definition state_fresh_tx : State :=
  {| seenChainLocks := ∅;
     bestChainLockHash := uint256_null;
     bestChainLock := CChainLockSig_default;
     bestChainLockWithKnownBlock := CChainLockSig_default;
     bestChainLockBlockIndex := None;
     lastNotifyChainLockBlockIndex := None;
     isSporkActive := true;
     isEnforced := true;
     tryLockChainTipScheduled := false;
     lastSignedHeight := -1;
     lastSignedRequestId := uint256_null;
     lastSignedMsgHash := uint256_null;
     blockTxs := {[ 12 := {[ 7 ]} ]};
     txFirstSeenTime := {[ 7 := 1000 ]};
     lastCleanupTime := 0 |}.


(** Variants of the sample node: other clocks, a block on disk, and a chain
    engine that switches to the branch of B' when asked to activate. *)
Definition make_env (millis secs : Z) (disk : option CBlock)
    (tip_activated : CBlockIndex) : Env :=
  {| GetTimeMillis := millis;
     GetAdjustedTime := secs;
     VerifyRecoveredSig := fun _ _ _ _ => true;
     BlockIndex_find := BlockIndex_find (sample_env true);
     PrevBlockIndex := PrevBlockIndex (sample_env true);
     ChainActive_Tip := block_C;
     ChainActive_Contains := ChainActive_Contains (sample_env true);
     IsValid := fun _ => true;
     InvalidateBlock := fun _ => true;
     ActivateBestChain := true;
     ReadBlockFromDisk := fun _ => disk;
     GetTransaction := fun _ => None;
     fMasternodeMode := true;
     IsBlockchainSynced := true;
     ChainActive_Tip_invalidated := block_C;
     ChainActive_Tip_activated := tip_activated |}.

Definition tx_7 : CTransaction := mkCTransaction 7 false false.
Definition tx_coinbase : CTransaction := mkCTransaction 8 true true.
Definition block_on_disk : CBlock := {| vtx := [tx_coinbase; tx_7]; nTime := 500 |}.

(** An enforcing handler whose best lock is bound to the side block B'. *)
Definition state_locked_B' : State :=
  {| seenChainLocks := {[ stub_SerializeHash (clsig_at 1 21) := 900 ]};
     bestChainLockHash := stub_SerializeHash (clsig_at 1 21);
     bestChainLock := clsig_at 1 21;
     bestChainLockWithKnownBlock := clsig_at 1 21;
     bestChainLockBlockIndex := Some block_B';
     lastNotifyChainLockBlockIndex := None;
     isSporkActive := true;
     isEnforced := true;
     tryLockChainTipScheduled := false;
     lastSignedHeight := -1;
     lastSignedRequestId := uint256_null;
     lastSignedMsgHash := uint256_null;
     blockTxs := {[ 12 := {[ 7 ]} ]};
     txFirstSeenTime := {[ 7 := 1000 ]};
     lastCleanupTime := 0 |}.

(** ** The handler's methods *)

Section Handler.

Set Default Proof Using "Type".

(** The canonical serialization hash of a CLSIG, the hash of a
    (prefix, height) pair that names a signing request, and the chain
    engine's ancestor-at-height query are fixed functions of their arguments;
    their code is outside this file. *)
Variable SerializeHash : CChainLockSig -> uint256.
Variable SerializeHash_pair : string -> Z -> uint256.
Variable GetAncestor : CBlockIndex -> Z -> option CBlockIndex.

Definition AlreadyHave (st : State) (inv_hash : uint256) : bool :=
  match seenChainLocks st !! inv_hash with
  | Some _ => true
  | None => false
  end.

(** Returns the result and the value of the out-parameter [ret]. *)
Definition GetChainLockByHash (st : State) (hash : uint256) (ret : CChainLockSig)
  : bool * CChainLockSig :=
  if negb (hash =? bestChainLockHash st) then (false, ret)
  else (true, bestChainLock st).

Definition InternalHasChainLock (st : State) (h : Z) (bh : uint256) : bool :=
  if negb (isEnforced st) then false
  else match bestChainLockBlockIndex st with
       | None => false
       | Some target =>
           if h >? index_nHeight target then false
           else if h =? index_nHeight target then bh =? GetBlockHash target
           else match GetAncestor target h with
                | Some pAncestor => GetBlockHash pAncestor =? bh
                | None => false
                end
       end.

Definition InternalHasConflictingChainLock (st : State) (h : Z) (bh : uint256)
  : Run bool :=
  if negb (isEnforced st) then Returns false
  else match bestChainLockBlockIndex st with
       | None => Returns false
       | Some target =>
           if h >? index_nHeight target then Returns false
           else if h =? index_nHeight target
                then Returns (negb (bh =? GetBlockHash target))
           else match GetAncestor target h with
                | Some pAncestor => Returns (negb (GetBlockHash pAncestor =? bh))
                | None => Aborts                      (* assert(pAncestor) *)
                end
       end.

Definition HasChainLock := InternalHasChainLock.
Definition HasConflictingChainLock := InternalHasConflictingChainLock.

Definition CheckActiveState (st : State) : State :=
  mkState (seenChainLocks st) uint256_null CChainLockSig_default
    CChainLockSig_default None None (isSporkActive st) (isEnforced st)
    (tryLockChainTipScheduled st) (lastSignedHeight st)
    (lastSignedRequestId st) (lastSignedMsgHash st) (blockTxs st)
    (txFirstSeenTime st) (lastCleanupTime st).

Definition IsTxSafeForMining (env : Env) (st : State) (txid : uint256) : bool :=
  if negb (isSporkActive st) then true
  else
    let txAge := match txFirstSeenTime st !! txid with
                 | Some t => int64_sub (GetAdjustedTime env) t
                 | None => 0
                 end in
    if txAge <? WAIT_FOR_ISLOCK_TIMEOUT then false else true.

Definition ProcessNewChainLock (env : Env) (from : NodeId)
    (clsig : CChainLockSig) (hash : uint256) (st : State)
  : Run (State * list Event) :=
  match seenChainLocks st !! hash with
  | Some _ => Returns (st, [])
  | None =>
    let st1 := set_seenChainLocks (<[hash := GetTimeMillis env]> (seenChainLocks st)) st in
    if negb (nHeight (bestChainLock st1) =? -1)
       && (nHeight clsig <=? nHeight (bestChainLock st1))
    then Returns (st1, [])
    else
      let requestId := SerializeHash_pair CLSIG_REQUESTID_PREFIX (nHeight clsig) in
      let msgHash := blockHash clsig in
      let verify := EvVerifyRecoveredSig (nHeight clsig) requestId msgHash (sig clsig) in
      if negb (VerifyRecoveredSig env (nHeight clsig) requestId msgHash (sig clsig))
      then Returns (st1, verify :: EvLog LogInvalidCLSIG ::
                         (if negb (from =? -1) then [EvMisbehaving from 10] else []))
      else
        call conflict <-
          InternalHasConflictingChainLock st1 (nHeight clsig) (blockHash clsig);
        if conflict then Returns (st1, [verify; EvLog LogReorgAttempt])
        else
          let st2 := set_best hash clsig st1 in
          match BlockIndex_find env (blockHash clsig) with
          | None => Returns (st2, [verify; EvRelayInv hash])
          | Some pindex =>
              if negb (index_nHeight pindex =? nHeight clsig)
              then Returns (st2, [verify; EvRelayInv hash; EvLog LogHeightMismatch])
              else Returns (set_known pindex st2,
                            [verify; EvRelayInv hash;
                             EvSchedule TaskEnforce 0; EvLog LogProcessed])
          end
  end.

(** *** The lock scopes of [ProcessNewChainLock]

    The method holds [cs] for the seen-set and height tests (l.100-110) and
    releases it; the signature is verified with no lock held (l.112-121);
    then [cs_main] and [cs] are taken for the conflict check and the commit
    (l.123-157), which does not repeat the tests.  Other calls of the
    handler can run between the first scope and the rest.

    [ProcessNewChainLock_test] is the first scope; its answer says whether
    the call goes on.  [ProcessNewChainLock_finish] is the rest of the
    call: the verifier reads no member of the handler, so its call and the
    commit scope are one step on the handler's state. *)
Definition ProcessNewChainLock_test (env : Env) (clsig : CChainLockSig)
    (hash : uint256) (st : State) : State * bool :=
  match seenChainLocks st !! hash with
  | Some _ => (st, false)
  | None =>
    let st1 := set_seenChainLocks (<[hash := GetTimeMillis env]> (seenChainLocks st)) st in
    if negb (nHeight (bestChainLock st1) =? -1)
       && (nHeight clsig <=? nHeight (bestChainLock st1))
    then (st1, false)
    else (st1, true)
  end.

Definition ProcessNewChainLock_finish (env : Env) (from : NodeId)
    (clsig : CChainLockSig) (hash : uint256) (st : State)
  : Run (State * list Event) :=
  let requestId := SerializeHash_pair CLSIG_REQUESTID_PREFIX (nHeight clsig) in
  let msgHash := blockHash clsig in
  let verify := EvVerifyRecoveredSig (nHeight clsig) requestId msgHash (sig clsig) in
  if negb (VerifyRecoveredSig env (nHeight clsig) requestId msgHash (sig clsig))
  then Returns (st, verify :: EvLog LogInvalidCLSIG ::
                    (if negb (from =? -1) then [EvMisbehaving from 10] else []))
  else
    call conflict <-
      InternalHasConflictingChainLock st (nHeight clsig) (blockHash clsig);
    if conflict then Returns (st, [verify; EvLog LogReorgAttempt])
    else
      let st2 := set_best hash clsig st in
      match BlockIndex_find env (blockHash clsig) with
      | None => Returns (st2, [verify; EvRelayInv hash])
      | Some pindex =>
          if negb (index_nHeight pindex =? nHeight clsig)
          then Returns (st2, [verify; EvRelayInv hash; EvLog LogHeightMismatch])
          else Returns (set_known pindex st2,
                        [verify; EvRelayInv hash;
                         EvSchedule TaskEnforce 0; EvLog LogProcessed])
      end.

(** [vRecv] is the CLSIG already decoded from the stream; [pfrom] is the
    sender's id. *)
Definition ProcessMessage (env : Env) (pfrom : NodeId) (strCommand : string)
    (vRecv : CChainLockSig) (st : State) : Run (State * list Event) :=
  if String.eqb strCommand NetMsgType_CLSIG
  then ProcessNewChainLock env pfrom vRecv (SerializeHash vRecv) st
  else Returns (st, []).

Definition AcceptedBlockHeader (pindexNew : CBlockIndex) (st : State)
  : State * list Event :=
  if GetBlockHash pindexNew =? blockHash (bestChainLock st) then
    if negb (nHeight (bestChainLock st) =? index_nHeight pindexNew)
    then (st, [EvLog LogHeaderLate; EvLog LogHeightMismatch])
    else (set_known pindexNew st, [EvLog LogHeaderLate])
  else (st, []).

Definition UpdatedBlockTip (st : State) : State * list Event :=
  if tryLockChainTipScheduled st then (st, [])
  else (set_tryLockChainTipScheduled true st, [EvSchedule TaskTipUpdate 0]).

(** *** Cleanup *)

(** One turn of the loop over [blockTxs]; [acc] holds the two tracker maps. *)
Definition cleanup_block (env : Env) (st : State)
    (acc : Run (gmap Z (gset Z) * gmap Z Z)) (entry : Z * gset Z)
  : Run (gmap Z (gset Z) * gmap Z Z) :=
  call a <- acc;
  match BlockIndex_find env entry.1 with
  | None => Aborts                                  (* ::BlockIndex().at() *)
  | Some pindex =>
      if InternalHasChainLock st (index_nHeight pindex) (GetBlockHash pindex)
      then Returns (delete entry.1 a.1,
                    filter (λ kv : Z * Z, kv.1 ∉ entry.2) a.2)
      else
        call conflict <- InternalHasConflictingChainLock st
                           (index_nHeight pindex) (GetBlockHash pindex);
        if conflict then Returns (delete entry.1 a.1, a.2) else Returns a
  end.

(** Whether the loop over [txFirstSeenTime] erases the entry of [txid]. *)
Definition cleanup_tx_erases (env : Env) (txid : uint256) : Run bool :=
  match GetTransaction env txid with
  | None => Returns true
  | Some hashBlock =>
      if negb (hashBlock =? uint256_null) then
        match BlockIndex_find env hashBlock with
        | None => Aborts                            (* ::BlockIndex().at() *)
        | Some pindex =>
            Returns
              (same_index_opt
                 (GetAncestor (ChainActive_Tip env) (index_nHeight pindex))
                 (Some pindex)
               && (int32_sub (index_nHeight (ChainActive_Tip env))
                             (index_nHeight pindex) >=? 6))
        end
      else Returns false
  end.

Definition cleanup_tx (env : Env) (acc : Run (gmap Z Z)) (entry : Z * Z)
  : Run (gmap Z Z) :=
  call fs <- acc;
  call erase <- cleanup_tx_erases env entry.1;
  Returns (if erase then delete entry.1 fs else fs).

Definition Cleanup (env : Env) (st : State) : Run State :=
  if negb (IsBlockchainSynced env) then Returns st
  else if int64_sub (GetTimeMillis env) (lastCleanupTime st) <? CLEANUP_INTERVAL
  then Returns st
  else
    let seen :=
      filter (λ kv : Z * Z,
                ¬ (CLEANUP_SEEN_TIMEOUT <= int64_sub (GetTimeMillis env) kv.2))
             (seenChainLocks st) in
    call tr <- fold_left (cleanup_block env st) (map_to_list (blockTxs st))
                         (Returns (blockTxs st, txFirstSeenTime st));
    call fs <- fold_left (cleanup_tx env) (map_to_list tr.2) (Returns tr.2);
    Returns (set_lastCleanupTime (GetTimeMillis env)
               (set_tracker tr.1 fs (set_seenChainLocks seen st))).

(** *** Signer *)

Definition TrySignChainTip (env : Env) (st : State) : Run (State * list Event) :=
  call st1 <- Cleanup env st;
  if negb (fMasternodeMode env) then Returns (st1, [])
  else if negb (IsBlockchainSynced env) then Returns (st1, [])
  else
    let pindex := ChainActive_Tip env in
    match pprev pindex with
    | None => Returns (st1, [])
    | Some _ =>
        if negb (isSporkActive st1) then Returns (st1, [])
        else if index_nHeight pindex =? lastSignedHeight st1 then Returns (st1, [])
        else if nHeight (bestChainLock st1) >=? index_nHeight pindex
        then Returns (st1, [])
        else
          call conflict <- InternalHasConflictingChainLock st1
                             (index_nHeight pindex) (GetBlockHash pindex);
          if conflict then Returns (st1, [])
          else
            let requestId :=
              SerializeHash_pair CLSIG_REQUESTID_PREFIX (index_nHeight pindex) in
            let msgHash := GetBlockHash pindex in
            if nHeight (bestChainLock st1) >=? index_nHeight pindex
            then Returns (st1, [EvLog LogTryingToSign])
            else Returns (set_lastSigned (index_nHeight pindex) requestId msgHash st1,
                          [EvLog LogTryingToSign;
                           EvAsyncSignIfMember requestId msgHash])
    end.

(** *** Block-tx tracker *)

Definition SyncTransaction (env : Env) (tx : CTransaction)
    (pindex : option CBlockIndex) (st : State) : State :=
  if negb (IsBlockchainSynced env) then st
  else
    let handleTx := negb (tx_IsCoinBase tx || tx_vin_empty tx) in
    let fs := if handleTx
              then map_emplace (tx_GetHash tx) (GetAdjustedTime env) (txFirstSeenTime st)
              else txFirstSeenTime st in
    let bt :=
      match pindex with
      | None => blockTxs st
      | Some p =>
          let bt1 := map_emplace (GetBlockHash p) (∅ : gset Z) (blockTxs st) in
          if handleTx
          then alter (λ txs : gset Z, {[tx_GetHash tx]} ∪ txs) (GetBlockHash p) bt1
          else bt1
      end in
    set_tracker bt fs st.

(** The non-coinbase txids of a block read from disk. *)
Definition block_txids (block : CBlock) : gset Z :=
  list_to_set
    (map tx_GetHash
       (List.filter (fun tx => negb (tx_IsCoinBase tx || tx_vin_empty tx))
                    (vtx block))).

(** Returns the state and the (possibly null) shared set. *)
Definition GetBlockTxs (env : Env) (bh : uint256) (st : State)
  : Run (State * option (gset Z) * list Event) :=
  match blockTxs st !! bh with
  | Some txs => Returns (st, Some txs, [])
  | None =>
      match BlockIndex_find env bh with
      | None => Aborts                              (* ::BlockIndex().at() *)
      | Some pindex =>
          match ReadBlockFromDisk env pindex with
          | None => Returns (st, None, [EvLog LogBlockTxsNotFound])
          | Some block =>
              let ret := block_txids block in
              let fs := set_fold (λ txid m, map_emplace txid (nTime block) m)
                                 (txFirstSeenTime st) ret in
              Returns (set_tracker (map_emplace bh ret (blockTxs st)) fs st,
                       Some ret, [EvLog LogBlockTxsNotFound])
          end
      end
  end.

(** *** Enforcer *)

Definition DoInvalidateBlock (env : Env) (pindex : CBlockIndex)
    (activateBestChain : bool) : Run (list Event) :=
  match BlockIndex_find env (GetBlockHash pindex) with
  | None => Aborts                   (* operator[] yields a null pindex2 *)
  | Some pindex2 =>
      if negb (InvalidateBlock env pindex2) then Aborts      (* assert(false) *)
      else if activateBestChain then
             if negb (ActivateBestChain env) then Aborts     (* assert(false) *)
             else Returns [EvInvalidateBlock pindex2; EvActivateBestChain]
           else Returns [EvInvalidateBlock pindex2]
  end.

(** The loop over [PrevBlockIndex().equal_range(prev hash)]: every entry
    other than [pindex] is invalidated in turn. *)
Fixpoint invalidate_siblings (env : Env) (pindex : CBlockIndex)
    (range : list CBlockIndex) : Run (list Event) :=
  match range with
  | [] => Returns []
  | jt :: rest =>
      if same_index jt pindex then invalidate_siblings env pindex rest
      else
        call inv <- DoInvalidateBlock env jt false;
        call more <- invalidate_siblings env pindex rest;
        Returns (EvLog LogInvalidates :: inv ++ more)
  end.

(** [while (pindex && !ChainActive().Contains(pindex))]; the walk follows
    [pprev], so it is structural on the entry. *)
Fixpoint invalidate_walk (env : Env) (pindex : CBlockIndex) : Run (list Event) :=
  if ChainActive_Contains env pindex then Returns []
  else match pprev pindex with
       | None => Aborts              (* pindex->pprev->GetBlockHash() on null *)
       | Some prev =>
           call evs <- invalidate_siblings env pindex
                         (PrevBlockIndex env (GetBlockHash prev));
           call rest <- invalidate_walk env prev;
           Returns (evs ++ rest)
       end.

Definition EnforceBestChainLock (env : Env) (st : State)
  : Run (State * list Event) :=
  if negb (isEnforced st) then Returns (st, [])
  else match bestChainLockBlockIndex st with
  | None => Returns (st, [])
  | Some cur =>
      call walk <- invalidate_walk env cur;
      call reset <-
        (if negb (IsValid env cur) then
           match BlockIndex_find env (GetBlockHash cur) with
           | None => Aborts                         (* ::BlockIndex().at() *)
           | Some b => Returns [EvResetBlockFailureFlags b]
           end
         else Returns []);
      let activateNeeded :=
        negb (same_index_opt
                (GetAncestor (ChainActive_Tip_invalidated env) (index_nHeight cur))
                (Some cur)) in
      let activate :=
        if activateNeeded
        then EvActivateBestChain ::
             (if negb (ActivateBestChain env) then [EvLog LogActivateFailed] else [])
        else [] in
      let tip := if activateNeeded then ChainActive_Tip_activated env
                 else ChainActive_Tip_invalidated env in
      if negb (same_index_opt (lastNotifyChainLockBlockIndex st) (Some cur))
         && same_index_opt (GetAncestor tip (index_nHeight cur)) (Some cur)
      then Returns (set_lastNotify (Some cur) st,
                    walk ++ reset ++ activate ++ [EvNotifyChainLock cur])
      else Returns (st, walk ++ reset ++ activate)
  end.

(** *** Recovered-signature listener *)

Definition HandleNewRecoveredSig (env : Env) (recoveredSig : CRecoveredSig)
    (st : State) : Run (State * list Event) :=
  if negb (isSporkActive st) then Returns (st, [])
  else if negb (rs_id recoveredSig =? lastSignedRequestId st)
          || negb (rs_msgHash recoveredSig =? lastSignedMsgHash st)
  then Returns (st, [])
  else if nHeight (bestChainLock st) >=? lastSignedHeight st then Returns (st, [])
  else
    let clsig := {| nHeight := lastSignedHeight st;
                    blockHash := lastSignedMsgHash st;
                    sig := rs_sig recoveredSig |} in
    ProcessNewChainLock env (-1) clsig (SerializeHash clsig) st.

(** *** Start, Stop and the scheduled closures *)

Definition Start (st : State) : State * list Event :=
  (st, [EvRegisterRecoveredSigsListener; EvScheduleEvery TaskPeriodic 5000]).

Definition Stop (st : State) : State * list Event :=
  (st, [EvUnregisterRecoveredSigsListener]).

Definition run_task (env : Env) (t : Task) (st : State) : Run (State * list Event) :=
  let st1 := CheckActiveState st in
  call r2 <- EnforceBestChainLock env st1;
  match t with
  | TaskEnforce => Returns r2
  | TaskPeriodic =>
      call r3 <- TrySignChainTip env r2.1;
      Returns (r3.1, r2.2 ++ r3.2)
  | TaskTipUpdate =>
      call r3 <- TrySignChainTip env r2.1;
      Returns (set_tryLockChainTipScheduled false r3.1, r2.2 ++ r3.2)
  end.

(** ** Executions *)

(** One entry into the handler: a call of a public method by the node, or the
    scheduler running one of the handler's closures. *)
Inductive Call :=
| CallProcessMessage (pfrom : NodeId) (strCommand : string) (vRecv : CChainLockSig)
| CallProcessNewChainLock (from : NodeId) (clsig : CChainLockSig) (hash : uint256)
| CallAcceptedBlockHeader (pindexNew : CBlockIndex)
| CallUpdatedBlockTip
| CallCheckActiveState
| CallTrySignChainTip
| CallSyncTransaction (tx : CTransaction) (pindex : option CBlockIndex)
| CallGetBlockTxs (bh : uint256)
| CallEnforceBestChainLock
| CallHandleNewRecoveredSig (recoveredSig : CRecoveredSig)
| CallCleanup
| CallStart
| CallStop
| CallScheduled (t : Task).

Definition exec (env : Env) (c : Call) (st : State) : Run (State * list Event) :=
  match c with
  | CallProcessMessage pfrom cmd vRecv => ProcessMessage env pfrom cmd vRecv st
  | CallProcessNewChainLock from clsig hash =>
      ProcessNewChainLock env from clsig hash st
  | CallAcceptedBlockHeader p => Returns (AcceptedBlockHeader p st)
  | CallUpdatedBlockTip => Returns (UpdatedBlockTip st)
  | CallCheckActiveState => Returns (CheckActiveState st, [])
  | CallTrySignChainTip => TrySignChainTip env st
  | CallSyncTransaction tx p => Returns (SyncTransaction env tx p st, [])
  | CallGetBlockTxs bh =>
      call r <- GetBlockTxs env bh st; Returns (r.1.1, r.2)
  | CallEnforceBestChainLock => EnforceBestChainLock env st
  | CallHandleNewRecoveredSig rs => HandleNewRecoveredSig env rs st
  | CallCleanup => call st1 <- Cleanup env st; Returns (st1, [])
  | CallStart => Returns (Start st)
  | CallStop => Returns (Stop st)
  | CallScheduled t => run_task env t st
  end.

(** A run of the handler: the calls in order, each with the collaborators'
    answers at that time; the events of all calls are concatenated. *)
Fixpoint run (calls : list (Env * Call)) (st : State) : Run (State * list Event) :=
  match calls with
  | [] => Returns (st, [])
  | (env, c) :: rest =>
      call r1 <- exec env c st;
      call r2 <- run rest r1.1;
      Returns (r2.1, r1.2 ++ r2.2)
  end.

(** *** Overlapping calls

    The handler is entered from several threads, and a method is atomic
    only within one lock scope.  The fields the claims on ingest read (the
    seen-set and the best-lock registry) are written by
    [ProcessNewChainLock] in two lock scopes and by every other method in
    at most one.  A step is therefore a whole call, the first scope of a
    [ProcessNewChainLock] call, or the rest of such a call; a call whose
    first scope let it go on is in flight until its rest has run.  The
    closures of the scheduler run as the calls they are made of
    ([CallCheckActiveState], [CallEnforceBestChainLock],
    [CallTrySignChainTip]) or as one call ([CallScheduled]); the flag a
    tip-update closure clears at its end is read by [UpdatedBlockTip]
    only.  [ProcessMessage] and [HandleNewRecoveredSig] write nothing
    before they hand their CLSIG to [ProcessNewChainLock]: when they
    overlap with other calls, they are the [StepTest] and [StepFinish] of
    the call they make. *)
Definition InFlight : Type := NodeId * CChainLockSig * uint256.

Inductive Step :=
| StepCall (c : Call)
| StepTest (from : NodeId) (clsig : CChainLockSig) (hash : uint256)
| StepFinish (i : nat).

(** [StepFinish i] runs the rest of the [i]-th call in flight; with no such
    call it is no step of the program and changes nothing. *)
Definition step (env : Env) (s : Step) (cfg : State * list InFlight)
  : Run (State * list InFlight * list Event) :=
  match s with
  | StepCall c =>
      call r <- exec env c cfg.1;
      Returns (r.1, cfg.2, r.2)
  | StepTest from clsig hash =>
      let r := ProcessNewChainLock_test env clsig hash cfg.1 in
      Returns (r.1, if r.2 then cfg.2 ++ [(from, clsig, hash)] else cfg.2, [])
  | StepFinish i =>
      match cfg.2 !! i with
      | Some (from, clsig, hash) =>
          call r <- ProcessNewChainLock_finish env from clsig hash cfg.1;
          Returns (r.1, delete i cfg.2, r.2)
      | None => Returns (cfg.1, cfg.2, [])
      end
  end.


(** ** Observations on event traces *)

Definition relayed (evs : list Event) : list uint256 :=
  omap (λ e, match e with EvRelayInv h => Some h | _ => None end) evs.

Definition misbehaved (evs : list Event) : list (NodeId * Z) :=
  omap (λ e, match e with EvMisbehaving p w => Some (p, w) | _ => None end) evs.

Definition verified (evs : list Event) : list (Z * uint256 * uint256 * CBLSSignature) :=
  omap (λ e, match e with
             | EvVerifyRecoveredSig h r m s => Some (h, r, m, s)
             | _ => None
             end) evs.

Definition sign_requests (evs : list Event) : list (uint256 * uint256) :=
  omap (λ e, match e with EvAsyncSignIfMember r m => Some (r, m) | _ => None end) evs.

(** The calls a method made, when it returned. *)
Definition events_of (r : Run (State * list Event)) : Run (list Event) :=
  call x <- r; Returns x.2.

(** The four fields of the best-lock registry that ingest writes. *)
Definition registry (st : State)
  : uint256 * CChainLockSig * CChainLockSig * option CBlockIndex :=
  (bestChainLockHash st, bestChainLock st, bestChainLockWithKnownBlock st,
   bestChainLockBlockIndex st).

(** A sample run: a CLSIG for C arrives before its header, the header
    follows, then a CLSIG for an unknown block at height 3. *)
Definition late_header_calls : list (Env * Call) :=
  [(sample_env false, CallProcessMessage 3 "clsig" (clsig_at 2 12));
   (sample_env true, CallAcceptedBlockHeader block_C);
   (sample_env true, CallProcessMessage 3 "clsig" (clsig_at 3 30))].

(** ** Observations on runs *)

(** A call either leaves the registry alone and relays nothing, or commits
    its CLSIG, relays its hash and had passed the height filter. *)
Definition commits (clsig : CChainLockSig) (hash : uint256)
    (st st' : State) (evs : list Event) : Prop :=
  relayed evs = [hash]
  /\ bestChainLock st' = clsig
  /\ bestChainLockHash st' = hash
  /\ (nHeight (bestChainLock st) = -1
      \/ nHeight (bestChainLock st) < nHeight clsig).

Definition keeps_best (st st' : State) (evs : list Event) : Prop :=
  relayed evs = []
  /\ bestChainLock st' = bestChainLock st
  /\ bestChainLockHash st' = bestChainLockHash st.

(** The peer, CLSIG and hash a call hands to [ProcessNewChainLock], when it
    gets that far. *)
Definition ingest (c : Call) (st : State)
  : option (NodeId * CChainLockSig * uint256) :=
  match c with
  | CallProcessNewChainLock from clsig hash => Some (from, clsig, hash)
  | CallProcessMessage pfrom cmd vRecv =>
      if String.eqb cmd NetMsgType_CLSIG
      then Some (pfrom, vRecv, SerializeHash vRecv) else None
  | CallHandleNewRecoveredSig rs =>
      if negb (isSporkActive st) then None
      else if negb (rs_id rs =? lastSignedRequestId st)
              || negb (rs_msgHash rs =? lastSignedMsgHash st) then None
      else if nHeight (bestChainLock st) >=? lastSignedHeight st then None
      else
        let clsig := {| nHeight := lastSignedHeight st;
                        blockHash := lastSignedMsgHash st;
                        sig := rs_sig rs |} in
        Some (-1, clsig, SerializeHash clsig)
  | _ => None
  end.

(** Calls that run [CheckActiveState], and calls that run [Cleanup]. *)
Definition is_reset (c : Call) : bool :=
  match c with
  | CallCheckActiveState | CallScheduled _ => true
  | _ => false
  end.

Definition evicts (c : Call) : bool :=
  match c with
  | CallTrySignChainTip | CallCleanup
  | CallScheduled TaskPeriodic | CallScheduled TaskTipUpdate => true
  | _ => false
  end.

(** A direct call of [ProcessNewChainLock] is canonical when it passes the
    serialization hash of its CLSIG, as [ProcessMessage] and
    [HandleNewRecoveredSig] do. *)
Definition canonical (c : Call) : Prop :=
  match c with
  | CallProcessNewChainLock _ clsig hash => hash = SerializeHash clsig
  | _ => True
  end.

Definition best_hash_consistent (st : State) : Prop :=
  (bestChainLock st = CChainLockSig_default /\ bestChainLockHash st = uint256_null)
  \/ bestChainLockHash st = SerializeHash (bestChainLock st).

(** *** Further observations *)

Definition scheduled (evs : list Event) : list (Task * Z) :=
  omap (λ e, match e with EvSchedule t d => Some (t, d) | _ => None end) evs.

Definition notified (evs : list Event) : list CBlockIndex :=
  omap (λ e, match e with EvNotifyChainLock b => Some b | _ => None end) evs.

Definition invalidated (evs : list Event) : list CBlockIndex :=
  omap (λ e, match e with EvInvalidateBlock b => Some b | _ => None end) evs.

(** The calls on the chain engine that change it or signal a lock. *)
Definition engine_calls (evs : list Event) : list Event :=
  List.filter (fun e => match e with
                        | EvInvalidateBlock _ | EvResetBlockFailureFlags _
                        | EvActivateBestChain | EvNotifyChainLock _ => true
                        | _ => false
                        end) evs.

(** The block index is a map keyed by block hash: a lookup yields an entry
    with that hash. *)
Definition index_by_hash (env : Env) : Prop :=
  forall h p, BlockIndex_find env h = Some p -> GetBlockHash p = h.

(** The bound block index entry is the block of
    [bestChainLockWithKnownBlock]. *)
Definition known_block_bound (st : State) : Prop :=
  forall p, bestChainLockBlockIndex st = Some p ->
            index_nHeight p = nHeight (bestChainLockWithKnownBlock st)
            /\ GetBlockHash p = blockHash (bestChainLockWithKnownBlock st).



(** How [Cleanup] finds a tracked block: chain-locked, conflicting with the
    lock, or neither. *)
Definition block_locked (env : Env) (st : State) (bh : uint256) : Prop :=
  exists p, BlockIndex_find env bh = Some p
            /\ InternalHasChainLock st (index_nHeight p) (GetBlockHash p) = true.

Definition block_conflicting (env : Env) (st : State) (bh : uint256) : Prop :=
  exists p, BlockIndex_find env bh = Some p
            /\ InternalHasChainLock st (index_nHeight p) (GetBlockHash p) = false
            /\ InternalHasConflictingChainLock st (index_nHeight p) (GetBlockHash p)
               = Returns true.

Definition block_kept (env : Env) (st : State) (bh : uint256) : Prop :=
  exists p, BlockIndex_find env bh = Some p
            /\ InternalHasChainLock st (index_nHeight p) (GetBlockHash p) = false
            /\ InternalHasConflictingChainLock st (index_nHeight p) (GetBlockHash p)
               = Returns false.

(** An entry and its predecessors along [pprev]. *)
Fixpoint branch (p : CBlockIndex) : list CBlockIndex :=
  p :: match pprev p with
       | Some q => branch q
       | None => []
       end.


(** *** Observations on executions with overlapping calls *)








(** How often a step has the verifier run for CLSIG hash [h]: the
    [VerifyRecoveredSig] calls of a [ProcessNewChainLock] call that was
    given [h]. *)
Definition step_verifies (h : uint256) (env : Env) (s : Step)
    (cfg : State * list InFlight) : nat :=
  match s with
  | StepCall c =>
      match ingest c cfg.1, exec env c cfg.1 with
      | Some (_, _, hash), Returns (_, evs) =>
          if (hash =? h)%Z then length (verified evs) else 0%nat
      | _, _ => 0%nat
      end
  | StepTest _ _ _ => 0%nat
  | StepFinish i =>
      match cfg.2 !! i with
      | Some (from, clsig, hash) =>
          match ProcessNewChainLock_finish env from clsig hash cfg.1 with
          | Returns (_, evs) =>
              if (hash =? h)%Z then length (verified evs) else 0%nat
          | Aborts => 0%nat
          end
      | None => 0%nat
      end
  end.

Fixpoint verifications (h : uint256) (steps : list (Env * Step))
    (cfg : State * list InFlight) : nat :=
  match steps with
  | [] => 0
  | (env, s) :: rest =>
      match step env s cfg with
      | Aborts => 0
      | Returns (cfg', _) =>
          (step_verifies h env s cfg + verifications h rest cfg')%nat
      end
  end.

(** Hash [h] is not evicted from the seen-set: a step that finds it there
    leaves it there. *)
Fixpoint stays_seen (h : uint256) (steps : list (Env * Step))
    (cfg : State * list InFlight) : bool :=
  match steps with
  | [] => true
  | (env, s) :: rest =>
      match step env s cfg with
      | Aborts => true
      | Returns (cfg', _) =>
          implb (bool_decide (is_Some (seenChainLocks cfg.1 !! h)))
                (bool_decide (is_Some (seenChainLocks cfg'.1 !! h)))
          && stays_seen h rest cfg'
      end
  end.

(** The calls in flight that were given hash [h]. *)
Definition in_flight_for (h : uint256) (flight : list InFlight) : nat :=
  length (List.filter (fun p : InFlight => (p.2 =? h)%Z) flight).


(** At most one call in flight was given [h], and then [h] is in the
    seen-set. *)
Definition flight_seen (h : uint256) (cfg : State * list InFlight) : Prop :=
  (in_flight_for h cfg.2 <= 1)%nat
  /\ ((1 <= in_flight_for h cfg.2)%nat -> is_Some (seenChainLocks cfg.1 !! h)).

(** How often the verifier can still run for [h]: once while [h] is not in
    the seen-set, and once for each call in flight that was given [h]. *)
Definition verification_budget (h : uint256) (cfg : State * list InFlight) : nat :=
  match seenChainLocks cfg.1 !! h with
  | Some _ => in_flight_for h cfg.2
  | None => 1
  end.

(** Steps that run [Cleanup]. *)
Definition evicts_step (s : Step) : bool :=
  match s with
  | StepCall c => evicts c
  | _ => false
  end.




(** The same CLSIG arrives three times, the second time while the first
    call is in flight; a cleanup runs in between and evicts nothing. *)
Definition repeated_steps : list (Env * Step) :=
  [(sample_env true, StepTest 3 (clsig_at 2 12) (stub_SerializeHash (clsig_at 2 12)));
   (make_env 40000 1000 None block_C, StepCall CallCleanup);
   (sample_env true, StepTest 4 (clsig_at 2 12) (stub_SerializeHash (clsig_at 2 12)));
   (sample_env true, StepFinish 0);
   (sample_env true, StepCall (CallProcessMessage 5 "clsig" (clsig_at 2 12)))].


(** ** Queries *)

(** C10: in the initial state and after any [CheckActiveState] reset,
    [GetChainLockByHash] answers the all-zero hash with [true] and the
    sentinel lock (height -1, null block hash), and answers any other hash
    with [false], leaving [ret] as it was. *)
Theorem C10_reset_state_serves_zero_hash :
  forall (spork enforced : bool) (st : State) (h : uint256) (ret : CChainLockSig),
    GetChainLockByHash (initial_state spork enforced) h ret
      = (if h =? uint256_null then (true, CChainLockSig_default) else (false, ret))
    /\ GetChainLockByHash (CheckActiveState st) h ret
      = (if h =? uint256_null then (true, CChainLockSig_default) else (false, ret))
    /\ nHeight CChainLockSig_default = -1
    /\ blockHash CChainLockSig_default = uint256_null.
Proof.
  intros spork enforced st h ret. unfold GetChainLockByHash. cbn.
  destruct (h =? uint256_null); repeat split; reflexivity.
Qed.

Lemma wrap_signed_64_id z : int64_range z -> wrap_signed 64 z = z.
Proof.
  unfold int64_range, wrap_signed. intros Hz.
  change (2 ^ (64 - 1)) with (2 ^ 63).
  rewrite Z.mod_small; [lia|].
  change (2 ^ 64) with (2 * 2 ^ 63). lia.
Qed.

(** C8: [IsTxSafeForMining] is [true] when the spork is off; otherwise it is
    [true] exactly when the txid has a first-seen entry that lies at least
    [WAIT_FOR_ISLOCK_TIMEOUT] before the adjusted clock, so a txid without an
    entry is unsafe.  The subtraction is the 64-bit one, taken where it does
    not overflow. *)
Theorem C8_IsTxSafeForMining_spec :
  forall (env : Env) (st : State) (txid : uint256),
    (forall t, txFirstSeenTime st !! txid = Some t ->
               int64_range (GetAdjustedTime env - t)) ->
    (isSporkActive st = false -> IsTxSafeForMining env st txid = true)
    /\ (isSporkActive st = true ->
        (IsTxSafeForMining env st txid = true <->
         exists t, txFirstSeenTime st !! txid = Some t
                   /\ WAIT_FOR_ISLOCK_TIMEOUT <= GetAdjustedTime env - t))
    /\ (isSporkActive st = true -> txFirstSeenTime st !! txid = None ->
        IsTxSafeForMining env st txid = false).
Proof.
  intros env st txid Hrange. unfold IsTxSafeForMining.
  split; [intros ->; reflexivity|].
  split.
  - intros ->. cbn [negb].
    destruct (txFirstSeenTime st !! txid) as [t|] eqn:Hlook.
    + unfold int64_sub. rewrite (wrap_signed_64_id _ (Hrange t eq_refl)).
      destruct (Z.ltb_spec (GetAdjustedTime env - t) WAIT_FOR_ISLOCK_TIMEOUT).
      * split; [discriminate|]. intros (t' & Ht' & Hge).
        injection Ht' as <-. lia.
      * split; [|reflexivity]. intros _. exists t. split; [reflexivity|lia].
    + cbn. split; [discriminate|]. intros (t' & Ht' & _). discriminate.
  - intros -> ->. reflexivity.
Qed.

(** C7: the two lock predicates, case by case.  Both are [false] when
    enforcement is off, when no block index entry is bound, and above the
    lock height; at the lock height they compare the hash with the locked
    entry's hash; below it they compare with the hash of the locked entry's
    ancestor at that height, [InternalHasConflictingChainLock] negating the
    comparison of [InternalHasChainLock]. *)
Theorem C7_lock_predicates_by_cases :
  forall (st : State) (h : Z) (bh : uint256),
    ((isEnforced st = false \/ bestChainLockBlockIndex st = None) ->
       InternalHasChainLock st h bh = false
       /\ InternalHasConflictingChainLock st h bh = Returns false)
    /\ (forall target,
         isEnforced st = true -> bestChainLockBlockIndex st = Some target ->
         (index_nHeight target < h ->
            InternalHasChainLock st h bh = false
            /\ InternalHasConflictingChainLock st h bh = Returns false)
         /\ (h = index_nHeight target ->
            InternalHasChainLock st h bh = (bh =? GetBlockHash target)
            /\ InternalHasConflictingChainLock st h bh
               = Returns (negb (bh =? GetBlockHash target)))
         /\ (h < index_nHeight target ->
            forall pAncestor, GetAncestor target h = Some pAncestor ->
            InternalHasChainLock st h bh = (bh =? GetBlockHash pAncestor)
            /\ InternalHasConflictingChainLock st h bh
               = Returns (negb (bh =? GetBlockHash pAncestor)))).
Proof.
  intros st h bh. unfold InternalHasChainLock, InternalHasConflictingChainLock.
  split.
  - intros [-> | ->]; [split; reflexivity|].
    destruct (isEnforced st); split; reflexivity.
  - intros target -> ->. cbn [negb].
    destruct (Z.gtb_spec h (index_nHeight target)) as [Hgt | Hle].
    + repeat split; try reflexivity; intros; lia.
    + destruct (Z.eqb_spec h (index_nHeight target)) as [Heq | Hne].
      * repeat split; try reflexivity; intros; lia.
      * split; [intros; lia|]. split; [intros; lia|].
        intros _ pAncestor ->. rewrite (Z.eqb_sym bh). split; reflexivity.
Qed.

(** Below the lock height, when the chain engine finds no ancestor,
    [InternalHasChainLock] answers [false] and the other predicate stops at
    its [assert]. *)
Lemma lock_predicates_without_ancestor :
  forall (st : State) (h : Z) (bh : uint256) target,
    isEnforced st = true -> bestChainLockBlockIndex st = Some target ->
    h < index_nHeight target -> GetAncestor target h = None ->
    InternalHasChainLock st h bh = false
    /\ InternalHasConflictingChainLock st h bh = Aborts.
Proof.
  intros st h bh target He Ht Hlt Ha.
  unfold InternalHasChainLock, InternalHasConflictingChainLock.
  rewrite He, Ht, Ha. cbn [negb].
  destruct (Z.gtb_spec h (index_nHeight target)); [lia|].
  destruct (Z.eqb_spec h (index_nHeight target)); [lia|].
  split; reflexivity.
Qed.

(** C6: in any state, if [HasChainLock] holds at a height for a hash [A],
    then [HasConflictingChainLock] holds at that height for every hash
    [B] other than [A]. *)
Theorem C6_conflict_safety :
  forall (st : State) (H : Z) (A B : uint256),
    A <> B ->
    HasChainLock st H A = true ->
    HasConflictingChainLock st H B = Returns true.
Proof.
  intros st H A B Hne.
  unfold HasChainLock, HasConflictingChainLock,
    InternalHasChainLock, InternalHasConflictingChainLock.
  destruct (isEnforced st); cbn [negb]; [|discriminate].
  destruct (bestChainLockBlockIndex st) as [target|]; [|discriminate].
  destruct (Z.gtb_spec H (index_nHeight target)); [discriminate|].
  destruct (Z.eqb_spec H (index_nHeight target)).
  - intros HA%Z.eqb_eq. f_equal. apply negb_true_iff, Z.eqb_neq. congruence.
  - destruct (GetAncestor target H) as [pAncestor|]; [|discriminate].
    intros HA%Z.eqb_eq. f_equal. apply negb_true_iff, Z.eqb_neq. congruence.
Qed.

(** Case analysis along the branches of a method: the tests, the lookups in
    the block index and the calls that may abort. *)
Ltac branches :=
  repeat (match goal with
          | |- context [if negb ?b then _ else _] => destruct b; cbn [negb]
          | |- context [if ?b then _ else _] => destruct b
          | |- context [run_bind ?m _] => destruct m as [[|]|]; cbn [run_bind]
          | |- context [match BlockIndex_find ?e ?h with _ => _ end] =>
              destruct (BlockIndex_find e h)
          | |- context [match pprev ?p with _ => _ end] => destruct (pprev p)
          end; try discriminate).

(** ** Ingest: what one call of [ProcessNewChainLock] does *)

Lemma relayed_app (a b : list Event) : relayed (a ++ b) = relayed a ++ relayed b.
Proof. apply omap_app. Qed.

Lemma verified_app (a b : list Event) : verified (a ++ b) = verified a ++ verified b.
Proof. apply omap_app. Qed.

Lemma ProcessNewChainLock_effect env from clsig hash st st' evs :
  ProcessNewChainLock env from clsig hash st = Returns (st', evs) ->
  (keeps_best st st' evs \/ commits clsig hash st st' evs)
  /\ (forall k, is_Some (seenChainLocks st !! k) -> is_Some (seenChainLocks st' !! k))
  /\ is_Some (seenChainLocks st' !! hash)
  /\ (length (verified evs) <= 1)%nat
  /\ (is_Some (seenChainLocks st !! hash) -> verified evs = []).
Proof.
  clear SerializeHash.
  unfold ProcessNewChainLock, keeps_best, commits.
  destruct (seenChainLocks st !! hash) as [t|] eqn:Hseen.
  { intros [= <- <-]. rewrite Hseen. cbn. intuition eauto. }
  assert (Hmono : forall k, is_Some (seenChainLocks st !! k) ->
                            is_Some (<[hash:=GetTimeMillis env]> (seenChainLocks st) !! k)).
  { intros k Hk. rewrite lookup_insert. destruct (decide (hash = k)); eauto. }
  assert (Hin : is_Some (<[hash:=GetTimeMillis env]> (seenChainLocks st) !! hash)).
  { rewrite lookup_insert_eq. eauto. }
  assert (Hno : ~ is_Some (@None Z)) by (intros [? [=]]).
  cbn [set_seenChainLocks bestChainLock].
  destruct (Z.eqb_spec (nHeight (bestChainLock st)) (-1)) as [Hs|Hs];
    cbn [negb andb];
    [|destruct (Z.leb_spec (nHeight clsig) (nHeight (bestChainLock st)))
        as [Hle|Hlt]].
  all: branches.
  all: intros [= <- <-]; cbn; intuition (eauto; lia).
Qed.

(** C9: when the signature check of [ProcessNewChainLock] fails, the call
    returns with the four registry fields as they were and relays nothing;
    a peer-sourced CLSIG ([from >= 0]) costs the peer one [Misbehaving(from,
    10)], a locally assembled one ([from = -1]) reports nothing. *)
Theorem C9_invalid_signature_dropped :
  forall (env : Env) (from : NodeId) (clsig : CChainLockSig) (hash : uint256)
         (st : State),
    seenChainLocks st !! hash = None ->
    (nHeight (bestChainLock st) = -1
     \/ nHeight (bestChainLock st) < nHeight clsig) ->
    VerifyRecoveredSig env (nHeight clsig)
      (SerializeHash_pair CLSIG_REQUESTID_PREFIX (nHeight clsig))
      (blockHash clsig) (sig clsig) = false ->
    exists st' evs,
      ProcessNewChainLock env from clsig hash st = Returns (st', evs)
      /\ registry st' = registry st
      /\ relayed evs = []
      /\ verified evs =
           [(nHeight clsig,
             SerializeHash_pair CLSIG_REQUESTID_PREFIX (nHeight clsig),
             blockHash clsig, sig clsig)]
      /\ (0 <= from -> misbehaved evs = [(from, 10)])
      /\ (from = -1 -> misbehaved evs = []).
Proof.
  intros env from clsig hash st Hnew Hfilter Hverify.
  unfold ProcessNewChainLock. rewrite Hnew.
  cbn [set_seenChainLocks bestChainLock].
  assert (negb (nHeight (bestChainLock st) =? -1)
          && (nHeight clsig <=? nHeight (bestChainLock st)) = false) as ->.
  { destruct Hfilter as [-> | Hlt]; [reflexivity|].
    apply andb_false_iff. right. apply Z.leb_gt. exact Hlt. }
  rewrite Hverify. cbn [negb].
  eexists _, _. split; [reflexivity|].
  split; [reflexivity|].
  destruct (Z.eqb_spec from (-1)) as [-> | Hpeer]; cbn;
    repeat split; intros; try reflexivity; try lia; congruence.
Qed.

(** ** Frames: what the other methods leave alone *)

Lemma registry_best (a b : State) :
  registry a = registry b ->
  bestChainLockHash a = bestChainLockHash b /\ bestChainLock a = bestChainLock b.
Proof. unfold registry. intros [= -> -> _ _]. auto. Qed.

Lemma Cleanup_frame env st st1 :
  Cleanup env st = Returns st1 ->
  registry st1 = registry st
  /\ lastNotifyChainLockBlockIndex st1 = lastNotifyChainLockBlockIndex st
  /\ isSporkActive st1 = isSporkActive st
  /\ isEnforced st1 = isEnforced st
  /\ lastSignedHeight st1 = lastSignedHeight st.
Proof.
  unfold Cleanup.
  destruct (IsBlockchainSynced env); cbn [negb]; [|intros [= <-]; auto].
  destruct (_ <? _); [intros [= <-]; auto|].
  destruct (fold_left (cleanup_block env st) _ _) as [tr|]; cbn [run_bind];
    [|discriminate].
  destruct (fold_left (cleanup_tx env) _ _) as [fs|]; cbn [run_bind];
    [|discriminate].
  intros [= <-]. auto.
Qed.

Lemma TrySignChainTip_frame env st st' evs :
  TrySignChainTip env st = Returns (st', evs) ->
  registry st' = registry st /\ relayed evs = [] /\ verified evs = [].
Proof.
  unfold TrySignChainTip.
  destruct (Cleanup env st) as [st1|] eqn:Hc; cbn [run_bind]; [|discriminate].
  apply Cleanup_frame in Hc as (Hreg & _).
  branches; intros [= <- <-]; auto.
Qed.

(** Between two cleanups the signer makes the same calls whatever the
    block-tx tracker holds: no test of [TrySignChainTip] reads [blockTxs] or
    [txFirstSeenTime]. *)
Lemma TrySignChainTip_ignores_tracker env st bt fs :
  (int64_sub (GetTimeMillis env) (lastCleanupTime st) <? CLEANUP_INTERVAL) = true ->
  events_of (TrySignChainTip env (set_tracker bt fs st))
  = events_of (TrySignChainTip env st).
Proof.
  intros Hrecent.
  unfold TrySignChainTip, Cleanup, InternalHasConflictingChainLock.
  cbn [set_tracker lastCleanupTime isSporkActive lastSignedHeight bestChainLock
       isEnforced bestChainLockBlockIndex].
  rewrite Hrecent.
  destruct (IsBlockchainSynced env); cbn [negb run_bind];
    cbn [set_tracker isSporkActive lastSignedHeight bestChainLock
         isEnforced bestChainLockBlockIndex];
    branches; reflexivity.
Qed.

Lemma DoInvalidateBlock_events env pindex act evs :
  DoInvalidateBlock env pindex act = Returns evs ->
  relayed evs = [] /\ verified evs = [].
Proof.
  unfold DoInvalidateBlock.
  branches; intros [= <-]; auto.
Qed.

Lemma invalidate_siblings_events env pindex range evs :
  invalidate_siblings env pindex range = Returns evs ->
  relayed evs = [] /\ verified evs = [].
Proof.
  revert evs. induction range as [|jt rest IH]; intros evs; cbn.
  - intros [= <-]; auto.
  - destruct (same_index jt pindex); [apply IH|].
    destruct (DoInvalidateBlock env jt false) as [inv|] eqn:Hinv;
      cbn [run_bind]; [|discriminate].
    destruct (invalidate_siblings env pindex rest) as [more|];
      cbn [run_bind]; [|discriminate].
    intros [= <-].
    apply DoInvalidateBlock_events in Hinv as [Hr Hv].
    destruct (IH more eq_refl) as [Hr' Hv'].
    unfold relayed, verified in *. cbn. rewrite !omap_app.
    rewrite Hr, Hr', Hv, Hv'. auto.
Qed.

Lemma invalidate_walk_events env pindex evs :
  invalidate_walk env pindex = Returns evs ->
  relayed evs = [] /\ verified evs = [].
Proof.
  revert evs.
  induction pindex as [h n prev IH] using
    (fix ind (P : CBlockIndex -> Prop)
         (step : forall h n prev,
             (forall q, prev = Some q -> P q) -> P (mkCBlockIndex h n prev))
         (p : CBlockIndex) : P p :=
       match p with
       | mkCBlockIndex h n prev =>
           step h n prev
             (match prev as o return forall q, o = Some q -> P q with
              | Some q0 => fun q Hq =>
                  match Hq in _ = o return
                        match o with Some r => P r | None => True end with
                  | eq_refl => ind P step q0
                  end
              | None => fun q Hq => match Hq with end
              end)
       end).
  intros evs. cbn.
  destruct (ChainActive_Contains env _); [intros [= <-]; auto|].
  destruct prev as [q|]; [|discriminate].
  destruct (invalidate_siblings env _ _) as [e1|] eqn:H1; cbn [run_bind];
    [|discriminate].
  destruct (invalidate_walk env q) as [e2|] eqn:H2; cbn [run_bind];
    [|discriminate].
  intros [= <-].
  apply invalidate_siblings_events in H1 as [Hr Hv].
  destruct (IH q eq_refl e2 H2) as [Hr' Hv'].
  unfold relayed, verified in *. rewrite !omap_app, Hr, Hr', Hv, Hv'. auto.
Qed.

Lemma EnforceBestChainLock_frame env st st' evs :
  EnforceBestChainLock env st = Returns (st', evs) ->
  registry st' = registry st
  /\ seenChainLocks st' = seenChainLocks st
  /\ relayed evs = [] /\ verified evs = [].
Proof.
  unfold EnforceBestChainLock.
  destruct (isEnforced st); cbn [negb]; [|intros [= <- <-]; auto].
  destruct (bestChainLockBlockIndex st) as [cur|] eqn:Hcur;
    [|intros [= <- <-]; auto].
  destruct (invalidate_walk env cur) as [walk|] eqn:Hw; cbn [run_bind];
    [|discriminate].
  apply invalidate_walk_events in Hw as [Hwr Hwv].
  set (reset := if negb (IsValid env cur) then _ else _).
  assert (Hreset : forall r, reset = Returns r -> relayed r = [] /\ verified r = []).
  { subst reset. destruct (IsValid env cur); cbn [negb].
    - intros r [= <-]; auto.
    - destruct (BlockIndex_find env _); [|discriminate]. intros r [= <-]; auto. }
  destruct reset as [r|]; cbn [run_bind]; [|discriminate].
  destruct (Hreset r eq_refl) as [Hrr Hrv].
  set (activate := if negb (same_index_opt _ _)
                  then EvActivateBestChain :: _ else _).
  assert (Hact : relayed activate = [] /\ verified activate = []).
  { subst activate. destruct (negb (same_index_opt _ _)); [|auto].
    destruct (ActivateBestChain env); auto. }
  destruct Hact as [Har Hav].
  destruct (_ && _); intros [= <- <-];
    unfold relayed, verified in *; rewrite !omap_app, ?Hwr, ?Hrr, ?Har,
      ?Hwv, ?Hrv, ?Hav; unfold registry; cbn; auto.
Qed.

(** ** Calls that feed the ingest pipeline *)

Lemma exec_ingest env c st from clsig hash :
  ingest c st = Some (from, clsig, hash) ->
  exec env c st
  = ProcessNewChainLock env from clsig hash st.
Proof.
  destruct c; cbn; try discriminate.
  - unfold ProcessMessage. destruct (String.eqb _ _); [|discriminate].
    intros [= <- <- <-]. reflexivity.
  - intros [= <- <- <-]. reflexivity.
  - unfold HandleNewRecoveredSig.
    destruct (negb (isSporkActive st)); [discriminate|].
    destruct (_ || _); [discriminate|].
    destruct (_ >=? _); [discriminate|].
    intros [= <- <- <-]. reflexivity.
Qed.

Lemma run_task_frame env t st st' evs :
  run_task env t st = Returns (st', evs) ->
  bestChainLock st' = CChainLockSig_default
  /\ bestChainLockHash st' = uint256_null
  /\ relayed evs = [] /\ verified evs = []
  /\ (t = TaskEnforce -> seenChainLocks st' = seenChainLocks st).
Proof.
  unfold run_task.
  destruct (EnforceBestChainLock env (CheckActiveState st)) as [[s2 e2]|] eqn:He;
    cbn [run_bind fst snd]; [|discriminate].
  apply EnforceBestChainLock_frame in He as (Hreg & Hseen & Hr & Hv).
  apply registry_best in Hreg as [Hh Hb]. cbn in Hh, Hb, Hseen.
  destruct t.
  - destruct (TrySignChainTip env s2) as [[s3 e3]|] eqn:Ht; cbn [run_bind];
      [|discriminate].
    apply TrySignChainTip_frame in Ht as (Hreg3 & Hr3 & Hv3).
    apply registry_best in Hreg3 as [Hh3 Hb3].
    intros [= <- <-]. unfold relayed, verified in *. cbn [fst snd].
    rewrite !omap_app, Hr, Hr3, Hv, Hv3.
    cbn; repeat split; try congruence; try discriminate; auto.
  - intros [= <- <-]. cbn; repeat split; try congruence; try discriminate; auto.
  - destruct (TrySignChainTip env s2) as [[s3 e3]|] eqn:Ht; cbn [run_bind];
      [|discriminate].
    apply TrySignChainTip_frame in Ht as (Hreg3 & Hr3 & Hv3).
    apply registry_best in Hreg3 as [Hh3 Hb3].
    intros [= <- <-]. unfold relayed, verified in *. cbn [fst snd].
    rewrite !omap_app, Hr, Hr3, Hv, Hv3.
    cbn; repeat split; try congruence; try discriminate; auto.
Qed.

(** A call that does not reach [ProcessNewChainLock] relays and verifies
    nothing; it leaves the best lock alone unless it runs
    [CheckActiveState], and the seen-set alone unless it runs [Cleanup]. *)
Lemma exec_no_ingest env c st st' evs :
  ingest c st = None ->
  exec env c st = Returns (st', evs) ->
  relayed evs = [] /\ verified evs = []
  /\ (if is_reset c
      then bestChainLock st' = CChainLockSig_default
           /\ bestChainLockHash st' = uint256_null
      else bestChainLock st' = bestChainLock st
           /\ bestChainLockHash st' = bestChainLockHash st)
  /\ (evicts c = false -> seenChainLocks st' = seenChainLocks st).
Proof.
  destruct c; cbn [ingest exec is_reset evicts].
  - unfold ProcessMessage. destruct (String.eqb _ _); [discriminate|].
    intros _ [= <- <-]; auto.
  - discriminate.
  - intros _. unfold AcceptedBlockHeader.
    destruct (_ =? _); [destruct (negb _)|]; intros [= <- <-]; auto.
  - intros _. unfold UpdatedBlockTip.
    destruct (tryLockChainTipScheduled st); intros [= <- <-]; auto.
  - intros _ [= <- <-]; auto.
  - intros _ Ht. apply TrySignChainTip_frame in Ht as (Hreg & Hr & Hv).
    apply registry_best in Hreg as [Hh Hb]. repeat split; auto; discriminate.
  - intros _. unfold SyncTransaction.
    destruct (negb (IsBlockchainSynced env)); intros [= <- <-]; auto.
  - intros _. unfold GetBlockTxs.
    destruct (blockTxs st !! bh); [intros [= <- <-]; auto|].
    destruct (BlockIndex_find env bh) as [p|]; [|discriminate].
    destruct (ReadBlockFromDisk env p); intros [= <- <-]; auto.
  - intros _ He. apply EnforceBestChainLock_frame in He as (Hreg & Hs & Hr & Hv).
    apply registry_best in Hreg as [Hh Hb]. auto.
  - unfold HandleNewRecoveredSig.
    destruct (negb (isSporkActive st)); [intros _ [= <- <-]; auto|].
    destruct (_ || _); [intros _ [= <- <-]; auto|].
    destruct (_ >=? _); [intros _ [= <- <-]; auto|discriminate].
  - intros _. destruct (Cleanup env st) as [s1|] eqn:Hc; cbn [run_bind];
      [|discriminate].
    apply Cleanup_frame in Hc as (Hreg & _). apply registry_best in Hreg as [Hh Hb].
    intros [= <- <-]. repeat split; auto; discriminate.
  - intros _ [= <- <-]; auto.
  - intros _ [= <- <-]; auto.
  - intros _ Hr. apply run_task_frame in Hr as (Hb & Hh & Hr & Hv & Hs).
    repeat split; auto. destruct t; try discriminate. auto.
Qed.

(** ** The hash of the best lock *)

Lemma exec_best_hash_consistent env c st st' evs :
  canonical c ->
  best_hash_consistent st ->
  exec env c st = Returns (st', evs) ->
  best_hash_consistent st'.
Proof.
  intros Hcan Hinv Hex. unfold best_hash_consistent in *.
  destruct (ingest c st) as [[[from clsig] hash]|] eqn:Hin.
  - assert (Hhash : hash = SerializeHash clsig).
    { destruct c; cbn in Hin, Hcan; try discriminate.
      - destruct (String.eqb _ _); [|discriminate]. congruence.
      - congruence.
      - repeat (match type of Hin with
                | (if ?b then _ else _) = _ => destruct b
                end; try discriminate).
        congruence. }
    rewrite (exec_ingest _ _ _ _ _ _ Hin) in Hex.
    apply ProcessNewChainLock_effect in Hex as (Hstep & _).
    destruct Hstep as [(_ & Hb & Hh) | (_ & Hb & Hh & _)].
    + rewrite Hb, Hh. exact Hinv.
    + right. congruence.
  - apply (exec_no_ingest _ _ _ _ _ Hin) in Hex as (_ & _ & Hb & _).
    destruct (is_reset c); destruct Hb as [Hb Hh]; [left; auto|].
    rewrite Hb, Hh. exact Hinv.
Qed.

(** C4 (amended): at every point a run of handler calls reaches from the
    initial state, either [bestChainLock] is the sentinel and
    [bestChainLockHash] is the all-zero hash (initially and after
    [CheckActiveState]), or [bestChainLockHash] is the canonical
    serialization hash of [bestChainLock]. *)
Theorem C4_best_hash_consistent :
  forall (spork enforced : bool) (calls : list (Env * Call))
         (st' : State) (evs : list Event),
    Forall (fun ec : Env * Call => canonical ec.2) calls ->
    run calls (initial_state spork enforced) = Returns (st', evs) ->
    best_hash_consistent st'.
Proof.
  intros spork enforced calls.
  assert (Hgen : forall st st' evs,
             best_hash_consistent st ->
             Forall (fun ec : Env * Call => canonical ec.2) calls ->
             run calls st = Returns (st', evs) -> best_hash_consistent st').
  { induction calls as [|[env c] rest IH]; intros st st' evs Hinv Hcalls.
    - cbn. intros [= <- <-]. exact Hinv.
    - inversion Hcalls as [|? ? Hc Hrest]; subst. cbn [snd] in Hc. cbn [run].
      destruct (exec env c st) as [[s1 e1]|] eqn:Hex; cbn [run_bind fst snd];
        [|discriminate].
      destruct (run rest s1) as [[s2 e2]|] eqn:Hrun; cbn [run_bind fst snd];
        [|discriminate].
      intros [= <- <-].
      eapply IH; [|exact Hrest|exact Hrun].
      eapply exec_best_hash_consistent; eassumption. }
  intros st' evs. apply Hgen. left. split; reflexivity.
Qed.


(** ** More on ingest *)

Lemma ProcessNewChainLock_binding env from clsig hash st st' evs :
  ProcessNewChainLock env from clsig hash st = Returns (st', evs) ->
  isEnforced st' = isEnforced st
  /\ ((bestChainLockWithKnownBlock st' = bestChainLockWithKnownBlock st
       /\ bestChainLockBlockIndex st' = bestChainLockBlockIndex st
       /\ scheduled evs = [])
      \/ (exists p,
             BlockIndex_find env (blockHash clsig) = Some p
             /\ index_nHeight p = nHeight clsig
             /\ bestChainLock st' = clsig
             /\ bestChainLockWithKnownBlock st' = clsig
             /\ bestChainLockBlockIndex st' = Some p
             /\ scheduled evs = [(TaskEnforce, 0)])).
Proof.
  unfold ProcessNewChainLock.
  destruct (seenChainLocks st !! hash); [intros [= <- <-]; auto|].
  destruct (negb _ && _); [intros [= <- <-]; auto|].
  destruct (VerifyRecoveredSig env _ _ _ _); cbn [negb];
    [|intros [= <- <-]; destruct (from =? -1); cbn; auto].
  destruct (InternalHasConflictingChainLock _ _ _) as [[|]|]; cbn [run_bind];
    [intros [= <- <-]; auto| |discriminate].
  destruct (BlockIndex_find env (blockHash clsig)) as [p|] eqn:Hfind;
    [|intros [= <- <-]; auto].
  destruct (Z.eqb_spec (index_nHeight p) (nHeight clsig)); cbn [negb];
    intros [= <- <-]; [|auto].
  split; [reflexivity|]. right. exists p. cbn. auto 10.
Qed.

(** In a state where the bound entry is the block of
    [bestChainLockWithKnownBlock] and that lock is not ahead of
    [bestChainLock], nothing above [bestChainLock] conflicts. *)
Lemma no_conflict_above_best st h bh :
  known_block_bound st ->
  nHeight (bestChainLockWithKnownBlock st) <= nHeight (bestChainLock st) ->
  nHeight (bestChainLock st) < h ->
  InternalHasConflictingChainLock st h bh = Returns false.
Proof.
  intros Hbound Hle Hlt. unfold InternalHasConflictingChainLock.
  destruct (isEnforced st); cbn [negb]; [|reflexivity].
  destruct (bestChainLockBlockIndex st) as [target|] eqn:Ht; [|reflexivity].
  destruct (Hbound target Ht) as [Hh _].
  destruct (Z.gtb_spec h (index_nHeight target)); [reflexivity|lia].
Qed.

(** X1: a verified CLSIG above [bestChainLock], met in a consistent state,
    is always committed: the call returns, the reorg branch is not taken,
    the CLSIG becomes [bestChainLock] and its hash is relayed once.  The
    block index entry is bound, and enforcement scheduled with delay 0,
    exactly when the block is known with the CLSIG's height; when the block
    is unknown or its height differs the binding is left as it was. *)
Theorem ProcessNewChainLock_commits_above_best :
  forall (env : Env) (from : NodeId) (clsig : CChainLockSig) (hash : uint256)
         (st : State),
    seenChainLocks st !! hash = None ->
    nHeight (bestChainLock st) < nHeight clsig ->
    known_block_bound st ->
    nHeight (bestChainLockWithKnownBlock st) <= nHeight (bestChainLock st) ->
    VerifyRecoveredSig env (nHeight clsig)
      (SerializeHash_pair CLSIG_REQUESTID_PREFIX (nHeight clsig))
      (blockHash clsig) (sig clsig) = true ->
    exists st' evs,
      ProcessNewChainLock env from clsig hash st = Returns (st', evs)
      /\ bestChainLock st' = clsig
      /\ bestChainLockHash st' = hash
      /\ relayed evs = [hash]
      /\ misbehaved evs = []
      /\ match BlockIndex_find env (blockHash clsig) with
         | Some p =>
             if index_nHeight p =? nHeight clsig
             then bestChainLockWithKnownBlock st' = clsig
                  /\ bestChainLockBlockIndex st' = Some p
                  /\ scheduled evs = [(TaskEnforce, 0)]
             else bestChainLockWithKnownBlock st' = bestChainLockWithKnownBlock st
                  /\ bestChainLockBlockIndex st' = bestChainLockBlockIndex st
                  /\ scheduled evs = []
         | None =>
             bestChainLockWithKnownBlock st' = bestChainLockWithKnownBlock st
             /\ bestChainLockBlockIndex st' = bestChainLockBlockIndex st
             /\ scheduled evs = []
         end.
Proof.
  intros env from clsig hash st Hnew Hlt Hbound Hle Hverify.
  unfold ProcessNewChainLock. rewrite Hnew.
  cbn [set_seenChainLocks bestChainLock].
  assert (negb (nHeight (bestChainLock st) =? -1)
          && (nHeight clsig <=? nHeight (bestChainLock st)) = false) as ->.
  { apply andb_false_iff. right. apply Z.leb_gt. exact Hlt. }
  rewrite Hverify. cbn [negb].
  rewrite (no_conflict_above_best _ (nHeight clsig) (blockHash clsig));
    [|exact Hbound|exact Hle|exact Hlt].
  cbn [run_bind].
  destruct (BlockIndex_find env (blockHash clsig)) as [p|].
  - destruct (index_nHeight p =? nHeight clsig); cbn [negb];
      eexists _, _; (split; [reflexivity|]); cbn; auto 10.
  - eexists _, _. split; [reflexivity|]. cbn. auto 10.
Qed.


(** X3: once a call has committed a CLSIG, [GetChainLockByHash] serves that
    CLSIG under the hash the call was given and under no other hash: the
    previous best lock can no longer be fetched. *)
Theorem GetChainLockByHash_after_commit :
  forall (env : Env) (from : NodeId) (clsig : CChainLockSig) (hash : uint256)
         (st st' : State) (evs : list Event),
    ProcessNewChainLock env from clsig hash st = Returns (st', evs) ->
    relayed evs <> [] ->
    forall (h : uint256) (ret : CChainLockSig),
      GetChainLockByHash st' h ret
      = (if h =? hash then (true, clsig) else (false, ret)).
Proof.
  intros env from clsig hash st st' evs Hp Hrel h ret.
  apply ProcessNewChainLock_effect in Hp as (Hstep & _).
  destruct Hstep as [(Hr & _) | (_ & Hb & Hh & _)]; [contradiction|].
  unfold GetChainLockByHash. rewrite Hb, Hh.
  destruct (h =? hash); reflexivity.
Qed.

(** X4: when a call binds the block index entry (it schedules enforcement)
    on an enforcing handler whose block index is keyed by hash, the lock is
    visible at once: [HasChainLock] holds for the CLSIG's height and block
    hash, and [HasConflictingChainLock] holds at that height for every other
    hash. *)
Theorem lock_visible_after_binding :
  forall (env : Env) (from : NodeId) (clsig : CChainLockSig) (hash : uint256)
         (st st' : State) (evs : list Event),
    index_by_hash env ->
    isEnforced st = true ->
    ProcessNewChainLock env from clsig hash st = Returns (st', evs) ->
    scheduled evs <> [] ->
    HasChainLock st' (nHeight clsig) (blockHash clsig) = true
    /\ forall B, B <> blockHash clsig ->
                 HasConflictingChainLock st' (nHeight clsig) B = Returns true.
Proof.
  intros env from clsig hash st st' evs Hidx Henf Hp Hsched.
  apply ProcessNewChainLock_binding in Hp as (He & Hcase).
  destruct Hcase as [(_ & _ & Hs) | (p & Hfind & Hh & _ & _ & Hi & _)];
    [contradiction|].
  apply Hidx in Hfind.
  unfold HasChainLock, HasConflictingChainLock, InternalHasChainLock,
    InternalHasConflictingChainLock.
  rewrite He, Henf, Hi, Hh, Hfind. cbn [negb].
  destruct (Z.gtb_spec (nHeight clsig) (nHeight clsig)); [lia|].
  rewrite !Z.eqb_refl. split; [reflexivity|].
  intros B HB. f_equal. apply negb_true_iff, Z.eqb_neq. exact HB.
Qed.

(** X5: a CLSIG that arrives before its header is committed without a
    binding; when [AcceptedBlockHeader] later delivers a header with the
    CLSIG's block hash and height, the entry is bound to it and
    [bestChainLockWithKnownBlock] catches up, with [bestChainLock] and its
    hash untouched.  A header with that hash but another height binds
    nothing. *)
Theorem late_header_binds :
  forall (env : Env) (from : NodeId) (clsig : CChainLockSig) (hash : uint256)
         (st st' : State) (evs : list Event) (pindexNew : CBlockIndex),
    ProcessNewChainLock env from clsig hash st = Returns (st', evs) ->
    relayed evs <> [] ->
    GetBlockHash pindexNew = blockHash clsig ->
    let st2 := (AcceptedBlockHeader pindexNew st').1 in
    bestChainLock st2 = clsig
    /\ bestChainLockHash st2 = hash
    /\ (index_nHeight pindexNew = nHeight clsig ->
        bestChainLockWithKnownBlock st2 = clsig
        /\ bestChainLockBlockIndex st2 = Some pindexNew)
    /\ (index_nHeight pindexNew <> nHeight clsig -> st2 = st').
Proof.
  intros env from clsig hash st st' evs p Hp Hrel Hhash.
  apply ProcessNewChainLock_effect in Hp as (Hstep & _).
  destruct Hstep as [(Hr & _) | (_ & Hb & Hh & _)]; [contradiction|].
  unfold AcceptedBlockHeader. rewrite Hb, Hhash, Z.eqb_refl.
  destruct (Z.eqb_spec (nHeight clsig) (index_nHeight p)) as [Heq|Hne];
    cbn [negb fst set_known bestChainLock bestChainLockHash
         bestChainLockWithKnownBlock bestChainLockBlockIndex].
  - rewrite Hb. repeat split; auto; intros; congruence.
  - repeat split; auto; intros; congruence.
Qed.


(** ** Invariants of the registry *)

(** The three ways a call of [ProcessNewChainLock] can end. *)
Lemma ProcessNewChainLock_outcome env from clsig hash st st' evs :
  ProcessNewChainLock env from clsig hash st = Returns (st', evs) ->
  (registry st' = registry st /\ relayed evs = [] /\ scheduled evs = [])
  \/ (commits clsig hash st st' evs
      /\ bestChainLockWithKnownBlock st' = bestChainLockWithKnownBlock st
      /\ bestChainLockBlockIndex st' = bestChainLockBlockIndex st
      /\ scheduled evs = [])
  \/ (commits clsig hash st st' evs
      /\ exists p,
          BlockIndex_find env (blockHash clsig) = Some p
          /\ index_nHeight p = nHeight clsig
          /\ bestChainLockWithKnownBlock st' = clsig
          /\ bestChainLockBlockIndex st' = Some p
          /\ scheduled evs = [(TaskEnforce, 0)]).
Proof.
  unfold ProcessNewChainLock, commits.
  destruct (seenChainLocks st !! hash); [intros [= <- <-]; auto|].
  cbn [set_seenChainLocks bestChainLock].
  destruct (Z.eqb_spec (nHeight (bestChainLock st)) (-1)) as [Hs|Hs];
    cbn [negb andb];
    [|destruct (Z.leb_spec (nHeight clsig) (nHeight (bestChainLock st)))
        as [Hle|Hlt]; [intros [= <- <-]; auto|]].
  all: destruct (VerifyRecoveredSig env _ _ _ _); cbn [negb];
    [|intros [= <- <-]; destruct (from =? -1); cbn; auto].
  all: destruct (InternalHasConflictingChainLock _ _ _) as [[|]|];
    cbn [run_bind]; [intros [= <- <-]; auto| |discriminate].
  all: destruct (BlockIndex_find env (blockHash clsig)) as [p|] eqn:Hfind;
    [destruct (Z.eqb_spec (index_nHeight p) (nHeight clsig)); cbn [negb]|];
    intros [= <- <-]; cbn.
  all: try (right; left; repeat split; auto; fail).
  all: right; right; (split; [auto|]); exists p; auto.
Qed.

Lemma run_task_registry env t st st' evs :
  run_task env t st = Returns (st', evs) ->
  registry st' = (uint256_null, CChainLockSig_default, CChainLockSig_default, None).
Proof.
  unfold run_task.
  destruct (EnforceBestChainLock env (CheckActiveState st)) as [[s2 e2]|] eqn:He;
    cbn [run_bind fst snd]; [|discriminate].
  apply EnforceBestChainLock_frame in He as (Hreg & _).
  destruct t.
  - destruct (TrySignChainTip env s2) as [[s3 e3]|] eqn:Ht; cbn [run_bind];
      [|discriminate].
    apply TrySignChainTip_frame in Ht as (Hreg3 & _).
    intros [= <- <-]. cbn [fst]. rewrite Hreg3, Hreg. reflexivity.
  - intros [= <- <-]. rewrite Hreg. reflexivity.
  - destruct (TrySignChainTip env s2) as [[s3 e3]|] eqn:Ht; cbn [run_bind];
      [|discriminate].
    apply TrySignChainTip_frame in Ht as (Hreg3 & _).
    intros [= <- <-]. cbn [fst]. unfold registry in *. cbn. exact (eq_trans Hreg3 Hreg).
Qed.

(** What a call that does not reach [ProcessNewChainLock] does to the
    registry: nothing, a reset, or the binding of a late header. *)
Lemma exec_no_ingest_registry env c st st' evs :
  ingest c st = None ->
  exec env c st = Returns (st', evs) ->
  registry st' = registry st
  \/ registry st'
     = (uint256_null, CChainLockSig_default, CChainLockSig_default, None)
  \/ (exists p,
         GetBlockHash p = blockHash (bestChainLock st)
         /\ index_nHeight p = nHeight (bestChainLock st)
         /\ registry st'
            = (bestChainLockHash st, bestChainLock st, bestChainLock st, Some p)).
Proof.
  destruct c; cbn [ingest exec].
  - unfold ProcessMessage. destruct (String.eqb _ _); [discriminate|].
    intros _ [= <- <-]; auto.
  - discriminate.
  - intros _. unfold AcceptedBlockHeader.
    destruct (Z.eqb_spec (GetBlockHash pindexNew) (blockHash (bestChainLock st)));
      [|intros [= <- <-]; auto].
    destruct (Z.eqb_spec (nHeight (bestChainLock st)) (index_nHeight pindexNew));
      cbn [negb]; intros [= <- <-]; [|auto].
    right. right. exists pindexNew. auto.
  - intros _. unfold UpdatedBlockTip.
    destruct (tryLockChainTipScheduled st); intros [= <- <-]; auto.
  - intros _ [= <- <-]; auto.
  - intros _ Ht. apply TrySignChainTip_frame in Ht as (Hreg & _). auto.
  - intros _. unfold SyncTransaction.
    destruct (negb (IsBlockchainSynced env)); intros [= <- <-]; auto.
  - intros _. unfold GetBlockTxs.
    destruct (blockTxs st !! bh); [intros [= <- <-]; auto|].
    destruct (BlockIndex_find env bh) as [p|]; [|discriminate].
    destruct (ReadBlockFromDisk env p); intros [= <- <-]; auto.
  - intros _ He. apply EnforceBestChainLock_frame in He as (Hreg & _). auto.
  - unfold HandleNewRecoveredSig.
    destruct (negb (isSporkActive st)); [intros _ [= <- <-]; auto|].
    destruct (_ || _); [intros _ [= <- <-]; auto|].
    destruct (_ >=? _); [intros _ [= <- <-]; auto|discriminate].
  - intros _. destruct (Cleanup env st) as [s1|] eqn:Hc; cbn [run_bind];
      [|discriminate].
    apply Cleanup_frame in Hc as (Hreg & _). intros [= <- <-]. auto.
  - intros _ [= <- <-]; auto.
  - intros _ [= <- <-]; auto.
  - intros _ Hr. apply run_task_registry in Hr. auto.
Qed.

Lemma exec_known_block_bound env c st st' evs :
  index_by_hash env ->
  known_block_bound st ->
  exec env c st = Returns (st', evs) ->
  known_block_bound st'.
Proof.
  intros Hidx Hinv Hex. unfold known_block_bound in *.
  destruct (ingest c st) as [[[from clsig] hash]|] eqn:Hin.
  - rewrite (exec_ingest _ _ _ _ _ _ Hin) in Hex.
    apply ProcessNewChainLock_outcome in Hex
      as [(Hreg & _) | [(_ & Hk & Hi & _) | (_ & p & Hf & Hh & Hk & Hi & _)]].
    + unfold registry in Hreg. injection Hreg as _ _ Hk Hi.
      rewrite Hk, Hi. exact Hinv.
    + rewrite Hk, Hi. exact Hinv.
    + rewrite Hk, Hi. intros q [= <-]. split; [exact Hh|]. apply Hidx, Hf.
  - apply (exec_no_ingest_registry _ _ _ _ _ Hin) in Hex
      as [Hreg | [Hreg | (p & Hhash & Hh & Hreg)]];
      unfold registry in Hreg; injection Hreg as _ _ Hk Hi; rewrite Hk, Hi.
    + exact Hinv.
    + discriminate.
    + intros q [= <-]. auto.
Qed.

(** X6: whenever a block index entry is bound, it is the block of
    [bestChainLockWithKnownBlock], with that lock's height and block hash.
    This holds after every run of handler calls from the initial state,
    given a block index that is keyed by hash. *)
Theorem bound_entry_is_known_block :
  forall (spork enforced : bool) (calls : list (Env * Call))
         (st' : State) (evs : list Event),
    Forall (fun ec : Env * Call => index_by_hash ec.1) calls ->
    run calls (initial_state spork enforced) = Returns (st', evs) ->
    known_block_bound st'.
Proof.
  intros spork enforced calls.
  assert (Hgen : forall st st' evs,
             known_block_bound st ->
             Forall (fun ec : Env * Call => index_by_hash ec.1) calls ->
             run calls st = Returns (st', evs) -> known_block_bound st').
  { induction calls as [|[env c] rest IH]; intros st st' evs Hinv Hcalls.
    - cbn. intros [= <- <-]. exact Hinv.
    - inversion Hcalls as [|? ? Hc Hrest]; subst. cbn [fst] in Hc. cbn [run].
      destruct (exec env c st) as [[s1 e1]|] eqn:Hex; cbn [run_bind fst snd];
        [|discriminate].
      destruct (run rest s1) as [[s2 e2]|] eqn:Hrun; cbn [run_bind fst snd];
        [|discriminate].
      intros [= <- <-].
      eapply IH; [|exact Hrest|exact Hrun].
      eapply exec_known_block_bound; eassumption. }
  intros st' evs. apply Hgen. intros p. cbn. discriminate.
Qed.

(** ** Tip updates and the signer *)

(** X8: tip updates are coalesced.  However many times [UpdatedBlockTip] is
    called in a row, one closure is scheduled (with delay 0) if none was
    pending and none otherwise; and when the scheduled closure has run, the
    pending flag is clear again. *)
Theorem UpdatedBlockTip_coalesces :
  forall (envs : list Env) (st : State),
    (exists st' evs,
        run (map (fun env => (env, CallUpdatedBlockTip)) envs) st
          = Returns (st', evs)
        /\ scheduled evs
           = (if tryLockChainTipScheduled st then []
              else match envs with
                   | [] => []
                   | _ :: _ => [(TaskTipUpdate, 0)]
                   end)
        /\ tryLockChainTipScheduled st'
           = (tryLockChainTipScheduled st
              || match envs with [] => false | _ :: _ => true end))
    /\ (forall env st' evs,
           run_task env TaskTipUpdate st = Returns (st', evs) ->
           tryLockChainTipScheduled st' = false).
Proof.
  intros envs st. split.
  - revert st. induction envs as [|env rest IH]; intros st.
    + exists st, []. cbn. destruct (tryLockChainTipScheduled st); auto.
    + cbn [map run exec]. unfold UpdatedBlockTip.
      destruct (tryLockChainTipScheduled st) eqn:Hflag; cbn [run_bind fst snd].
      * destruct (IH st) as (st' & evs & Hrun & Hs & Hf).
        rewrite Hrun. cbn [run_bind fst snd]. exists st', evs.
        rewrite Hflag in Hs, Hf. cbn in Hf. auto.
      * destruct (IH (set_tryLockChainTipScheduled true st))
          as (st' & evs & Hrun & Hs & Hf).
        rewrite Hrun. cbn [run_bind fst snd]. eexists _, _.
        split; [reflexivity|]. cbn in Hs, Hf. unfold scheduled in *. cbn.
        rewrite Hs. auto.
  - intros env st' evs. unfold run_task.
    destruct (EnforceBestChainLock env _) as [[s2 e2]|]; cbn [run_bind fst snd];
      [|discriminate].
    destruct (TrySignChainTip env s2) as [[s3 e3]|]; cbn [run_bind fst snd];
      [|discriminate].
    intros [= <- <-]. reflexivity.
Qed.

Lemma Cleanup_signer_frame env st st1 :
  Cleanup env st = Returns st1 ->
  lastSignedHeight st1 = lastSignedHeight st
  /\ lastSignedRequestId st1 = lastSignedRequestId st
  /\ lastSignedMsgHash st1 = lastSignedMsgHash st
  /\ tryLockChainTipScheduled st1 = tryLockChainTipScheduled st.
Proof.
  unfold Cleanup.
  destruct (IsBlockchainSynced env); cbn [negb]; [|intros [= <-]; auto].
  destruct (_ <? _); [intros [= <-]; auto|].
  destruct (fold_left (cleanup_block env st) _ _) as [tr|]; cbn [run_bind];
    [|discriminate].
  destruct (fold_left (cleanup_tx env) _ _) as [fs|]; cbn [run_bind];
    [|discriminate].
  intros [= <-]. auto.
Qed.

Lemma TrySignChainTip_state env st st' evs :
  TrySignChainTip env st = Returns (st', evs) ->
  exists st1,
    Cleanup env st = Returns st1
    /\ (st' = st1 \/ exists h r m, st' = set_lastSigned h r m st1).
Proof.
  unfold TrySignChainTip.
  destruct (Cleanup env st) as [st1|]; cbn [run_bind]; [|discriminate].
  intros Hrun. exists st1. split; [reflexivity|].
  revert Hrun. branches; intros [= <- <-]; eauto.
Qed.

Lemma TrySignChainTip_signs :
  forall (env : Env) (st st' : State) (evs : list Event),
    TrySignChainTip env st = Returns (st', evs) ->
    let tip := ChainActive_Tip env in
    let requestId := SerializeHash_pair CLSIG_REQUESTID_PREFIX (index_nHeight tip) in
    (sign_requests evs <> [] ->
       fMasternodeMode env = true
       /\ IsBlockchainSynced env = true
       /\ pprev tip <> None
       /\ isSporkActive st = true
       /\ index_nHeight tip <> lastSignedHeight st
       /\ nHeight (bestChainLock st) < index_nHeight tip
       /\ sign_requests evs = [(requestId, GetBlockHash tip)]
       /\ lastSignedHeight st' = index_nHeight tip
       /\ lastSignedRequestId st' = requestId
       /\ lastSignedMsgHash st' = GetBlockHash tip)
    /\ (sign_requests evs = [] ->
        lastSignedHeight st' = lastSignedHeight st
        /\ lastSignedRequestId st' = lastSignedRequestId st
        /\ lastSignedMsgHash st' = lastSignedMsgHash st).
Proof.
  intros env st st' evs. unfold TrySignChainTip.
  destruct (Cleanup env st) as [st1|] eqn:Hc; cbn [run_bind]; [|discriminate].
  pose proof (Cleanup_signer_frame _ _ _ Hc) as (Hsh & Hsr & Hsm & _).
  apply Cleanup_frame in Hc as (Hreg & _ & Hspork & _).
  apply registry_best in Hreg as [_ Hbest].
  rewrite Hspork, Hsh, Hbest.
  destruct (fMasternodeMode env); cbn [negb];
    [|intros [= <- <-]; cbn; split; [congruence|auto]].
  destruct (IsBlockchainSynced env); cbn [negb];
    [|intros [= <- <-]; cbn; split; [congruence|auto]].
  destruct (pprev (ChainActive_Tip env)) as [prev|];
    [|intros [= <- <-]; cbn; split; [congruence|auto]].
  destruct (isSporkActive st); cbn [negb];
    [|intros [= <- <-]; cbn; split; [congruence|auto]].
  destruct (Z.eqb_spec (index_nHeight (ChainActive_Tip env)) (lastSignedHeight st));
    [intros [= <- <-]; cbn; split; [congruence|auto]|].
  destruct (Z.geb_spec (nHeight (bestChainLock st))
              (index_nHeight (ChainActive_Tip env)));
    [intros [= <- <-]; cbn; split; [congruence|auto]|].
  destruct (InternalHasConflictingChainLock st1 _ _) as [[|]|]; cbn [run_bind];
    [intros [= <- <-]; cbn; split; [congruence|auto]| |discriminate].
  intros [= <- <-]. cbn. split; [|discriminate].
  intros _. repeat split; auto; try discriminate; lia.
Qed.

(** X9: the signer's guards.  [TrySignChainTip] requests a signature only on
    a synced masternode with the spork on, for a tip that has a predecessor,
    whose height differs from the last signed one and lies above
    [bestChainLock]; the one request is for (H("clsig", tip height), tip
    hash), and exactly that proposal is recorded as the pending one.  When no
    signature is requested the pending proposal is left as it was. *)
Theorem TrySignChainTip_guards :
  forall (env : Env) (st st' : State) (evs : list Event),
    TrySignChainTip env st = Returns (st', evs) ->
    let tip := ChainActive_Tip env in
    let requestId := SerializeHash_pair CLSIG_REQUESTID_PREFIX (index_nHeight tip) in
    (sign_requests evs <> [] ->
       fMasternodeMode env = true
       /\ IsBlockchainSynced env = true
       /\ pprev tip <> None
       /\ isSporkActive st = true
       /\ index_nHeight tip <> lastSignedHeight st
       /\ nHeight (bestChainLock st) < index_nHeight tip
       /\ sign_requests evs = [(requestId, GetBlockHash tip)]
       /\ lastSignedHeight st' = index_nHeight tip
       /\ lastSignedRequestId st' = requestId
       /\ lastSignedMsgHash st' = GetBlockHash tip)
    /\ (sign_requests evs = [] ->
        lastSignedHeight st' = lastSignedHeight st
        /\ lastSignedRequestId st' = lastSignedRequestId st
        /\ lastSignedMsgHash st' = lastSignedMsgHash st).
Proof. exact TrySignChainTip_signs. Qed.

Lemma TrySignChainTip_already_signed env st st' evs :
  lastSignedHeight st = index_nHeight (ChainActive_Tip env) ->
  TrySignChainTip env st = Returns (st', evs) ->
  sign_requests evs = [] /\ lastSignedHeight st' = lastSignedHeight st.
Proof.
  intros Hsigned Hrun.
  pose proof (TrySignChainTip_signs _ _ _ _ Hrun) as [Hyes Hno].
  destruct (sign_requests evs) as [|r rs] eqn:Hs.
  - split; [reflexivity|]. apply Hno. reflexivity.
  - destruct Hyes as (_ & _ & _ & _ & Hne & _); [discriminate|]. congruence.
Qed.

(** X10: after [TrySignChainTip] has requested a signature for a tip, it
    does not request one again while the tip keeps that height: neither on
    the next call nor after a [CheckActiveState] reset in between. *)
Theorem TrySignChainTip_signs_height_once :
  forall (env env2 : Env) (st st' st2 : State) (evs evs2 : list Event),
    TrySignChainTip env st = Returns (st', evs) ->
    sign_requests evs <> [] ->
    index_nHeight (ChainActive_Tip env2) = index_nHeight (ChainActive_Tip env) ->
    (TrySignChainTip env2 st' = Returns (st2, evs2)
     \/ TrySignChainTip env2 (CheckActiveState st') = Returns (st2, evs2)) ->
    sign_requests evs2 = [].
Proof.
  intros env env2 st st' st2 evs evs2 Hrun Hsigned Htip Hagain.
  pose proof (TrySignChainTip_signs _ _ _ _ Hrun) as [Hyes _].
  destruct (Hyes Hsigned) as (_ & _ & _ & _ & _ & _ & _ & Hh & _).
  destruct Hagain as [Hagain | Hagain];
    eapply TrySignChainTip_already_signed in Hagain; try apply Hagain;
    cbn; congruence.
Qed.

(** X11: the signer loop closes.  After [TrySignChainTip] has requested a
    signature, a recovered signature carrying the requested id and message
    hash is assembled into the CLSIG (tip height, tip hash, signature) and
    processed as a local CLSIG ([from = -1]) under its serialization hash,
    provided no CLSIG has been committed in between. *)
Theorem recovered_sig_after_signing_is_ingested :
  forall (env env2 : Env) (st st' : State) (evs : list Event)
         (recoveredSig : CRecoveredSig),
    TrySignChainTip env st = Returns (st', evs) ->
    sign_requests evs
      = [(rs_id recoveredSig, rs_msgHash recoveredSig)] ->
    let clsig := {| nHeight := index_nHeight (ChainActive_Tip env);
                    blockHash := GetBlockHash (ChainActive_Tip env);
                    sig := rs_sig recoveredSig |} in
    HandleNewRecoveredSig env2 recoveredSig st'
    = ProcessNewChainLock env2 (-1) clsig (SerializeHash clsig) st'.
Proof.
  intros env env2 st st' evs rs Hrun Hreq.
  pose proof (TrySignChainTip_signs _ _ _ _ Hrun) as [Hyes _].
  destruct Hyes as (_ & _ & _ & Hspork & _ & Hlt & Hreq' & Hh & Hr & Hm);
    [rewrite Hreq; discriminate|].
  rewrite Hreq in Hreq'. injection Hreq' as Hid Hmsg.
  pose proof (TrySignChainTip_frame _ _ _ _ Hrun) as (Hreg & _).
  apply registry_best in Hreg as [_ Hbest].
  assert (Hspork' : isSporkActive st' = true).
  { destruct (TrySignChainTip_state _ _ _ _ Hrun) as (st1 & Hc & Hst').
    apply Cleanup_frame in Hc as (_ & _ & Hs1 & _).
    destruct Hst' as [-> | (h & r & m & ->)]; cbn; congruence. }
  cbn zeta. unfold HandleNewRecoveredSig.
  rewrite Hspork', Hr, Hm, Hh, Hbest, Hid, Hmsg, !Z.eqb_refl. cbn [negb orb].
  destruct (Z.geb_spec (nHeight (bestChainLock st))
              (index_nHeight (ChainActive_Tip env))); [lia|].
  reflexivity.
Qed.

Lemma ProcessNewChainLock_local_no_misbehaving env clsig hash st st' evs :
  ProcessNewChainLock env (-1) clsig hash st = Returns (st', evs) ->
  misbehaved evs = [].
Proof.
  unfold ProcessNewChainLock.
  destruct (seenChainLocks st !! hash); [intros [= <- <-]; auto|].
  destruct (negb _ && _); [intros [= <- <-]; auto|].
  destruct (VerifyRecoveredSig env _ _ _ _); cbn [negb];
    [|intros [= <- <-]; reflexivity].
  branches; intros [= <- <-]; reflexivity.
Qed.

(** X12: [HandleNewRecoveredSig] ignores what the handler did not ask for
    and blames nobody.  With the spork off, or for a recovered signature
    whose id or message hash is not the pending one, or when [bestChainLock]
    has reached the pending height, the state is unchanged and nothing is
    called; and no call of it ever reports misbehaviour, even when the
    assembled CLSIG fails verification. *)
Theorem HandleNewRecoveredSig_ignores_foreign :
  forall (env : Env) (recoveredSig : CRecoveredSig) (st st' : State)
         (evs : list Event),
    HandleNewRecoveredSig env recoveredSig st = Returns (st', evs) ->
    misbehaved evs = []
    /\ ((isSporkActive st = false
         \/ rs_id recoveredSig <> lastSignedRequestId st
         \/ rs_msgHash recoveredSig <> lastSignedMsgHash st
         \/ lastSignedHeight st <= nHeight (bestChainLock st)) ->
        st' = st /\ evs = []).
Proof.
  intros env rs st st' evs. unfold HandleNewRecoveredSig.
  destruct (isSporkActive st); cbn [negb];
    [|intros [= <- <-]; split; [reflexivity|auto]].
  destruct (Z.eqb_spec (rs_id rs) (lastSignedRequestId st)); cbn [negb orb];
    [|intros [= <- <-]; split; [reflexivity|auto]].
  destruct (Z.eqb_spec (rs_msgHash rs) (lastSignedMsgHash st)); cbn [negb];
    [|intros [= <- <-]; split; [reflexivity|auto]].
  destruct (Z.geb_spec (nHeight (bestChainLock st)) (lastSignedHeight st));
    [intros [= <- <-]; split; [reflexivity|auto]|].
  intros Hp. split.
  - eapply ProcessNewChainLock_local_no_misbehaving. exact Hp.
  - intros [Hs | [Hi | [Hm | Hh]]]; try discriminate; try contradiction; lia.
Qed.


(** ** The block-tx tracker *)

Lemma map_emplace_lookup {V} (k : Z) (v : V) (m : gmap Z V) (j : Z) :
  map_emplace k v m !! j
  = match m !! j with
    | Some x => Some x
    | None => if decide (k = j) then Some v else None
    end.
Proof.
  clear SerializeHash SerializeHash_pair GetAncestor.
  unfold map_emplace. destruct (m !! k) as [x|] eqn:Hk.
  - destruct (m !! j) eqn:Hj; [reflexivity|].
    destruct (decide (k = j)) as [->|]; congruence.
  - rewrite lookup_insert. destruct (decide (k = j)) as [->|].
    + rewrite Hk. reflexivity.
    + destruct (m !! j); reflexivity.
Qed.

(** X13: [SyncTransaction] never rewrites history.  A first-seen time that
    is recorded stays as it is, whatever transaction is synced; the only
    first-seen entry that can appear is the synced transaction's, stamped
    with the current adjusted time; and a tracked block keeps every txid it
    had. *)
Theorem SyncTransaction_keeps_first_seen :
  forall (env : Env) (tx : CTransaction) (pindex : option CBlockIndex)
         (st : State),
    let st' := SyncTransaction env tx pindex st in
    (forall txid t,
        txFirstSeenTime st !! txid = Some t ->
        txFirstSeenTime st' !! txid = Some t)
    /\ (forall txid t,
        txFirstSeenTime st !! txid = None ->
        txFirstSeenTime st' !! txid = Some t ->
        txid = tx_GetHash tx /\ t = GetAdjustedTime env)
    /\ (forall bh txs,
        blockTxs st !! bh = Some txs ->
        exists txs', blockTxs st' !! bh = Some txs' /\ txs ⊆ txs').
Proof.
  clear SerializeHash SerializeHash_pair GetAncestor.
  intros env tx pindex st. cbn zeta. unfold SyncTransaction.
  destruct (IsBlockchainSynced env); cbn [negb];
    [|split; [auto|split; [congruence|]];
      intros bh txs Hb; exists txs; split; [exact Hb|set_solver]].
  cbn [set_tracker txFirstSeenTime blockTxs]. split; [|split].
  - intros txid t Ht. destruct (negb _); [|exact Ht].
    rewrite map_emplace_lookup, Ht. reflexivity.
  - intros txid t Hnone. destruct (negb _); [|congruence].
    rewrite map_emplace_lookup, Hnone.
    destruct (decide (tx_GetHash tx = txid)); [|discriminate].
    intros [= <-]. auto.
  - intros bh txs Hb. destruct pindex as [p|]; [|eauto].
    assert (He : map_emplace (GetBlockHash p) (∅ : gset Z) (blockTxs st) !! bh
                 = Some txs).
    { rewrite map_emplace_lookup, Hb. reflexivity. }
    destruct (negb _); [|eauto].
    rewrite lookup_alter. destruct (decide (GetBlockHash p = bh)) as [<-|].
    + rewrite He. cbn. eexists. split; [reflexivity|]. set_solver.
    + eauto.
Qed.

(** X14: what [SyncTransaction] records on a synced node.  A transaction
    with inputs that is not a coinbase gets a first-seen entry and, when it
    comes with a block, is a member of that block's set.  A coinbase or
    input-less transaction touches no first-seen time, but with a block it
    still makes the block tracked (with the set it had, or an empty one).
    Off sync the call changes nothing. *)
Theorem SyncTransaction_records :
  forall (env : Env) (tx : CTransaction) (pindex : option CBlockIndex)
         (st : State),
    let st' := SyncTransaction env tx pindex st in
    (IsBlockchainSynced env = false -> st' = st)
    /\ (IsBlockchainSynced env = true ->
        tx_IsCoinBase tx || tx_vin_empty tx = false ->
        is_Some (txFirstSeenTime st' !! tx_GetHash tx)
        /\ (forall p, pindex = Some p ->
              exists txs, blockTxs st' !! GetBlockHash p = Some txs
                          /\ tx_GetHash tx ∈ txs)
        /\ (pindex = None -> blockTxs st' = blockTxs st))
    /\ (IsBlockchainSynced env = true ->
        tx_IsCoinBase tx || tx_vin_empty tx = true ->
        txFirstSeenTime st' = txFirstSeenTime st
        /\ (forall p, pindex = Some p ->
              blockTxs st' !! GetBlockHash p
              = Some (default ∅ (blockTxs st !! GetBlockHash p)))
        /\ (pindex = None -> blockTxs st' = blockTxs st)).
Proof.
  clear SerializeHash SerializeHash_pair GetAncestor.
  intros env tx pindex st. cbn zeta. unfold SyncTransaction.
  split; [intros ->; reflexivity|].
  split; intros -> ->; cbn [negb set_tracker txFirstSeenTime blockTxs].
  - split; [|split].
    + rewrite map_emplace_lookup.
      destruct (txFirstSeenTime st !! tx_GetHash tx); [eauto|].
      destruct (decide (tx_GetHash tx = tx_GetHash tx)); [eauto|congruence].
    + intros p ->. rewrite lookup_alter_eq, map_emplace_lookup.
      destruct (blockTxs st !! GetBlockHash p) as [txs|]; cbn.
      * eexists. split; [reflexivity|]. set_solver.
      * destruct (decide (GetBlockHash p = GetBlockHash p)); [|congruence].
        cbn. eexists. split; [reflexivity|]. set_solver.
    + intros ->. reflexivity.
  - split; [reflexivity|]. split.
    + intros p ->. rewrite map_emplace_lookup.
      destruct (blockTxs st !! GetBlockHash p); [reflexivity|].
      destruct (decide (GetBlockHash p = GetBlockHash p)); [reflexivity|congruence].
    + intros ->. reflexivity.
Qed.

(** X15: a transaction first seen through [SyncTransaction] is unsafe for
    mining at once and becomes safe when [WAIT_FOR_ISLOCK_TIMEOUT] seconds
    of adjusted time have passed: with the spork on, [IsTxSafeForMining] at
    a later time is [true] exactly when the elapsed time has reached the
    timeout. *)
Theorem synced_tx_safe_after_timeout :
  forall (env env2 : Env) (tx : CTransaction) (pindex : option CBlockIndex)
         (st : State),
    IsBlockchainSynced env = true ->
    tx_IsCoinBase tx || tx_vin_empty tx = false ->
    txFirstSeenTime st !! tx_GetHash tx = None ->
    isSporkActive st = true ->
    int64_range (GetAdjustedTime env2 - GetAdjustedTime env) ->
    IsTxSafeForMining env2 (SyncTransaction env tx pindex st) (tx_GetHash tx)
    = (WAIT_FOR_ISLOCK_TIMEOUT <=? GetAdjustedTime env2 - GetAdjustedTime env).
Proof.
  clear SerializeHash SerializeHash_pair GetAncestor.
  intros env env2 tx pindex st Hsync Htx Hnew Hspork Hrange.
  unfold IsTxSafeForMining, SyncTransaction. rewrite Hsync, Htx.
  cbn [negb set_tracker txFirstSeenTime isSporkActive]. rewrite Hspork.
  cbn [negb]. rewrite map_emplace_lookup, Hnew.
  destruct (decide (tx_GetHash tx = tx_GetHash tx)); [|congruence].
  unfold int64_sub. rewrite (wrap_signed_64_id _ Hrange).
  destruct (Z.ltb_spec (GetAdjustedTime env2 - GetAdjustedTime env)
              WAIT_FOR_ISLOCK_TIMEOUT);
    symmetry; [apply Z.leb_gt|apply Z.leb_le]; assumption.
Qed.

Lemma block_txids_spec (block : CBlock) (txid : uint256) :
  txid ∈ block_txids block
  <-> exists tx, In tx (vtx block) /\ tx_GetHash tx = txid
                 /\ tx_IsCoinBase tx = false /\ tx_vin_empty tx = false.
Proof.
  clear SerializeHash SerializeHash_pair GetAncestor.
  unfold block_txids. rewrite elem_of_list_to_set, list_elem_of_In, in_map_iff.
  split.
  - intros (tx & Hh & Hin). apply filter_In in Hin as [Hin Hf].
    apply negb_true_iff, orb_false_iff in Hf as [Hc Hv]. eauto.
  - intros (tx & Hin & Hh & Hc & Hv). exists tx. split; [exact Hh|].
    apply filter_In. split; [exact Hin|]. rewrite Hc, Hv. reflexivity.
Qed.

Lemma backfill_lookup (X : gset Z) (t : Z) (m : gmap Z Z) (k : Z) :
  set_fold (λ txid acc, map_emplace txid t acc) m X !! k
  = match m !! k with
    | Some v => Some v
    | None => if decide (k ∈ X) then Some t else None
    end.
Proof.
  clear SerializeHash SerializeHash_pair GetAncestor.
  pose (P := fun (r : gmap Z Z) (Y : gset Z) =>
               r !! k = match m !! k with
                        | Some v => Some v
                        | None => if decide (k ∈ Y) then Some t else None
                        end).
  change (P (set_fold (λ txid acc, map_emplace txid t acc) m X) X).
  apply (set_fold_ind_L P); unfold P.
  - destruct (m !! k); [reflexivity|].
    destruct (decide (k ∈ (∅ : gset Z))); [set_solver|reflexivity].
  - intros x Y r Hx IH. rewrite map_emplace_lookup, IH.
    destruct (m !! k); [reflexivity|].
    destruct (decide (k ∈ Y)) as [?|?]; destruct (decide (x = k)) as [?|?];
      destruct (decide (k ∈ {[x]} ∪ Y)) as [Hu|Hu];
      try reflexivity; exfalso;
      first [ apply Hu, elem_of_union; rewrite elem_of_singleton; auto
            | apply elem_of_union in Hu as [Hu%elem_of_singleton|Hu]; auto ].
Qed.


(** X17: the backfill of [GetBlockTxs].  For a block that is not tracked
    and is read from disk, the returned set holds exactly the hashes of the
    block's transactions that have inputs and are not coinbase; each of them
    gets the block time as first-seen time unless it already had one, which
    is kept; and no other first-seen entry changes. *)
Theorem GetBlockTxs_backfills :
  forall (env : Env) (bh : uint256) (st : State) (p : CBlockIndex)
         (block : CBlock),
    blockTxs st !! bh = None ->
    BlockIndex_find env bh = Some p ->
    ReadBlockFromDisk env p = Some block ->
    exists st' txs evs,
      GetBlockTxs env bh st = Returns (st', Some txs, evs)
      /\ (forall txid,
             txid ∈ txs <->
             exists tx, In tx (vtx block) /\ tx_GetHash tx = txid
                        /\ tx_IsCoinBase tx = false /\ tx_vin_empty tx = false)
      /\ blockTxs st' !! bh = Some txs
      /\ (forall txid,
             txFirstSeenTime st' !! txid
             = match txFirstSeenTime st !! txid with
               | Some t => Some t
               | None => if decide (txid ∈ txs) then Some (nTime block) else None
               end).
Proof.
  clear SerializeHash SerializeHash_pair GetAncestor.
  intros env bh st p block Hmiss Hfind Hread.
  unfold GetBlockTxs. rewrite Hmiss, Hfind, Hread.
  eexists _, _, _. split; [reflexivity|].
  cbn [set_tracker blockTxs txFirstSeenTime].
  split; [intros txid; apply block_txids_spec|].
  split.
  - rewrite map_emplace_lookup, Hmiss.
    destruct (decide (bh = bh)); [reflexivity|congruence].
  - intros txid. apply backfill_lookup.
Qed.


(** ** Cleanup *)

Lemma fold_left_Aborts {A B} (f : Run A -> B -> Run A) (l : list B) :
  (forall b, f Aborts b = Aborts) -> fold_left f l Aborts = Aborts.
Proof. intros Hf. induction l as [|b l IH]; cbn; [reflexivity|]. rewrite Hf. exact IH. Qed.

Lemma cleanup_block_fold env st (l : list (Z * gset Z)) :
  forall bt fs bt' fs',
    fold_left (cleanup_block env st) l (Returns (bt, fs)) = Returns (bt', fs') ->
    (forall bh txs,
        bt' !! bh = Some txs <->
        bt !! bh = Some txs
        /\ ((exists txs0, In (bh, txs0) l) -> block_kept env st bh))
    /\ (forall k t,
        fs' !! k = Some t <->
        fs !! k = Some t
        /\ (forall bh txs, In (bh, txs) l -> block_locked env st bh -> k ∉ txs)).
Proof.
  induction l as [|[bh0 txs0] rest IH]; intros bt fs bt' fs'.
  - cbn. intros [= <- <-]. split.
    + intros bh txs. split; [intros H; split; [exact H|intros [? []]]|tauto].
    + intros k t. split; [intros H; split; [exact H|intros ? ? []]|tauto].
  - cbn [fold_left]. unfold cleanup_block at 2. cbn [run_bind fst snd].
    destruct (BlockIndex_find env bh0) as [p|] eqn:Hfind;
      [|rewrite fold_left_Aborts by reflexivity; discriminate].
    destruct (InternalHasChainLock st (index_nHeight p) (GetBlockHash p)) eqn:Hl.
    + (* locked *)
      intros Hfold. apply IH in Hfold as [Hbt Hfs]. split.
      * intros bh txs. rewrite Hbt. rewrite lookup_delete.
        destruct (decide (bh0 = bh)) as [<-|Hne].
        -- split; [intros [[=] _]|].
           intros [_ Hk]. destruct Hk as (q & Hq & Hq' & _); [eexists; left; eauto|].
           congruence.
        -- split; intros [Hb Hk]; (split; [exact Hb|]); intros [t0 Hin].
           ++ destruct Hin as [[= ? ?]|Hin]; [congruence|]. eauto.
           ++ apply Hk. exists t0. right. exact Hin.
      * intros k t. rewrite Hfs, map_lookup_filter_Some. cbn [fst snd].
        split.
        -- intros [[Hk Hnot] Hrest]. split; [exact Hk|].
           intros bh txs [[= <- <-]|Hin] Hlock; [exact Hnot|eauto].
        -- intros [Hk Hall]. split; [split; [exact Hk|]|].
           ++ apply (Hall bh0 txs0); [left; reflexivity|]. exists p. auto.
           ++ intros bh txs Hin. apply Hall. right. exact Hin.
    + destruct (InternalHasConflictingChainLock st (index_nHeight p) (GetBlockHash p))
        as [[|]|] eqn:Hc; cbn [run_bind];
        [| |rewrite fold_left_Aborts by reflexivity; discriminate].
      * (* conflicting *)
        intros Hfold. apply IH in Hfold as [Hbt Hfs]. split.
        -- intros bh txs. rewrite Hbt. rewrite lookup_delete.
           destruct (decide (bh0 = bh)) as [<-|Hne].
           ++ split; [intros [[=] _]|].
              intros [_ Hk]. destruct Hk as (q & Hq & _ & Hq');
                [eexists; left; eauto|]. congruence.
           ++ split; intros [Hb Hk]; (split; [exact Hb|]); intros [t0 Hin].
              ** destruct Hin as [[= ? ?]|Hin]; [congruence|]. eauto.
              ** apply Hk. exists t0. right. exact Hin.
        -- intros k t. rewrite Hfs. split; intros [Hk Hall]; (split; [exact Hk|]).
           ++ intros bh txs [[= <- <-]|Hin] Hlock; [|eauto].
              destruct Hlock as (q & Hq & Hq'). congruence.
           ++ intros bh txs Hin. apply Hall. right. exact Hin.
      * (* kept *)
        intros Hfold. apply IH in Hfold as [Hbt Hfs]. split.
        -- intros bh txs. rewrite Hbt.
           split; intros [Hb Hk]; (split; [exact Hb|]); intros [t0 Hin].
           ++ destruct Hin as [[= <- <-]|Hin]; [exists p; auto|eauto].
           ++ apply Hk. exists t0. right. exact Hin.
        -- intros k t. rewrite Hfs. split; intros [Hk Hall]; (split; [exact Hk|]).
           ++ intros bh txs [[= <- <-]|Hin] Hlock; [|eauto].
              destruct Hlock as (q & Hq & Hq'). congruence.
           ++ intros bh txs Hin. apply Hall. right. exact Hin.
Qed.

Lemma cleanup_tx_fold env (l : list (Z * Z)) :
  forall m m',
    fold_left (cleanup_tx env) l (Returns m) = Returns m' ->
    forall k t,
      m' !! k = Some t <->
      m !! k = Some t
      /\ ((exists t0, In (k, t0) l) -> cleanup_tx_erases env k = Returns false).
Proof.
  induction l as [|[k0 t0] rest IH]; intros m m'.
  - cbn. intros [= <-] k t. split; [intros H; split; [exact H|intros [? []]]|tauto].
  - cbn [fold_left]. unfold cleanup_tx at 2. cbn [run_bind fst snd].
    destruct (cleanup_tx_erases env k0) as [[|]|] eqn:He; cbn [run_bind];
      [| |rewrite fold_left_Aborts by reflexivity; discriminate];
      intros Hfold k t; rewrite (IH _ _ Hfold).
    + rewrite lookup_delete. destruct (decide (k0 = k)) as [<-|Hne].
      * split; [intros [[=] _]|]. intros [_ Hk].
        rewrite He in Hk. discriminate Hk. eexists; left; eauto.
      * split; intros [Hb Hk]; (split; [exact Hb|]); intros [t1 Hin].
        -- destruct Hin as [[= ? ?]|Hin]; [congruence|]. eauto.
        -- apply Hk. exists t1. right. exact Hin.
    + split; intros [Hb Hk]; (split; [exact Hb|]); intros [t1 Hin].
      * destruct Hin as [[= <- <-]|Hin]; [exact He|eauto].
      * apply Hk. exists t1. right. exact Hin.
Qed.

Lemma In_map_to_list {V} (m : gmap Z V) (k : Z) (v : V) :
  In (k, v) (map_to_list m) <-> m !! k = Some v.
Proof. rewrite <- list_elem_of_In. apply elem_of_map_to_list. Qed.

(** The three ways [Cleanup] can end. *)
Lemma Cleanup_cases env st st' :
  Cleanup env st = Returns st' ->
  (st' = st
   /\ (IsBlockchainSynced env = false
       \/ int64_sub (GetTimeMillis env) (lastCleanupTime st) < CLEANUP_INTERVAL))
  \/ (IsBlockchainSynced env = true
      /\ CLEANUP_INTERVAL <= int64_sub (GetTimeMillis env) (lastCleanupTime st)
      /\ exists bt fs1 fs,
          fold_left (cleanup_block env st) (map_to_list (blockTxs st))
                    (Returns (blockTxs st, txFirstSeenTime st)) = Returns (bt, fs1)
          /\ fold_left (cleanup_tx env) (map_to_list fs1) (Returns fs1) = Returns fs
          /\ st' = set_lastCleanupTime (GetTimeMillis env)
                     (set_tracker bt fs
                        (set_seenChainLocks
                           (filter (λ kv : Z * Z,
                                      ¬ (CLEANUP_SEEN_TIMEOUT
                                         <= int64_sub (GetTimeMillis env) kv.2))
                                   (seenChainLocks st)) st))).
Proof.
  unfold Cleanup.
  destruct (IsBlockchainSynced env); cbn [negb]; [|intros [= <-]; auto].
  destruct (Z.ltb_spec (int64_sub (GetTimeMillis env) (lastCleanupTime st))
              CLEANUP_INTERVAL); [intros [= <-]; auto|].
  destruct (fold_left (cleanup_block env st) _ _) as [[bt fs1]|] eqn:Hb;
    cbn [run_bind fst snd]; [|discriminate].
  destruct (fold_left (cleanup_tx env) _ _) as [fs|] eqn:Ht; cbn [run_bind];
    [|discriminate].
  intros [= <-]. right. repeat split; auto. exists bt, fs1, fs. auto.
Qed.

(** X18: a cleanup that runs (synced node, [CLEANUP_INTERVAL] elapsed)
    evicts from the seen-set exactly the hashes first received
    [CLEANUP_SEEN_TIMEOUT] or more ago and keeps the others with their
    times; an evicted hash is no longer known to [AlreadyHave]; and the time
    of the cleanup is recorded. *)
Theorem Cleanup_evicts_old_hashes :
  forall (env : Env) (st st' : State),
    Cleanup env st = Returns st' ->
    IsBlockchainSynced env = true ->
    CLEANUP_INTERVAL <= int64_sub (GetTimeMillis env) (lastCleanupTime st) ->
    (forall h t,
        seenChainLocks st' !! h = Some t <->
        seenChainLocks st !! h = Some t
        /\ int64_sub (GetTimeMillis env) t < CLEANUP_SEEN_TIMEOUT)
    /\ (forall h t,
        seenChainLocks st !! h = Some t ->
        CLEANUP_SEEN_TIMEOUT <= int64_sub (GetTimeMillis env) t ->
        AlreadyHave st' h = false)
    /\ lastCleanupTime st' = GetTimeMillis env.
Proof.
  intros env st st' Hc Hsync Hdue.
  apply Cleanup_cases in Hc as [(_ & [Hs | Hi]) | (_ & _ & bt & fs1 & fs & _ & _ & ->)];
    [congruence|lia|].
  cbn [set_lastCleanupTime set_tracker set_seenChainLocks seenChainLocks
       lastCleanupTime].
  assert (Hlook : forall h t,
             filter (λ kv : Z * Z,
                       ¬ (CLEANUP_SEEN_TIMEOUT <= int64_sub (GetTimeMillis env) kv.2))
                    (seenChainLocks st) !! h = Some t <->
             seenChainLocks st !! h = Some t
             /\ int64_sub (GetTimeMillis env) t < CLEANUP_SEEN_TIMEOUT).
  { intros h t. rewrite map_lookup_filter_Some. cbn [snd].
    split; intros [H1 H2]; (split; [exact H1|lia]). }
  split; [exact Hlook|]. split; [|reflexivity].
  intros h t Ht Hold. unfold AlreadyHave. cbn [seenChainLocks].
  match goal with
  | |- context [?m !! h] => destruct (m !! h) as [t'|] eqn:Hf; [|reflexivity]
  end.
  apply Hlook in Hf as [Hf Hyoung]. rewrite Ht in Hf. injection Hf as <-. lia.
Qed.

(** X19: [Cleanup] is throttled.  After a cleanup has run, a further call
    made less than [CLEANUP_INTERVAL] later changes nothing; nor does any
    call on a node that is not synced. *)
Theorem Cleanup_throttled :
  forall (env env2 : Env) (st st' : State),
    Cleanup env st = Returns st' ->
    IsBlockchainSynced env = true ->
    CLEANUP_INTERVAL <= int64_sub (GetTimeMillis env) (lastCleanupTime st) ->
    (int64_sub (GetTimeMillis env2) (GetTimeMillis env) < CLEANUP_INTERVAL
     \/ IsBlockchainSynced env2 = false) ->
    Cleanup env2 st' = Returns st'.
Proof.
  intros env env2 st st' Hc Hsync Hdue Hsoon.
  assert (Htime : lastCleanupTime st' = GetTimeMillis env).
  { apply Cleanup_cases in Hc
      as [(_ & [Hs | Hi]) | (_ & _ & bt & fs1 & fs & _ & _ & ->)];
      [congruence|lia|reflexivity]. }
  unfold Cleanup. destruct Hsoon as [Hsoon | ->]; [|reflexivity].
  destruct (IsBlockchainSynced env2); cbn [negb]; [|reflexivity].
  rewrite Htime. apply Z.ltb_lt in Hsoon. rewrite Hsoon. reflexivity.
Qed.

(** X20: what a cleanup that runs leaves of the block-tx tracker.  A tracked
    block stays, with its set unchanged, exactly when it is neither
    chain-locked nor conflicting with the lock.  A first-seen time stays,
    unchanged, exactly when its transaction is in no chain-locked tracked
    block and the loop over the first-seen times does not erase it (it is
    still resolvable and not confirmed 6 deep on the active chain).  Nothing
    is added. *)
Theorem Cleanup_prunes_tracker :
  forall (env : Env) (st st' : State),
    Cleanup env st = Returns st' ->
    IsBlockchainSynced env = true ->
    CLEANUP_INTERVAL <= int64_sub (GetTimeMillis env) (lastCleanupTime st) ->
    (forall bh txs,
        blockTxs st' !! bh = Some txs <->
        blockTxs st !! bh = Some txs /\ block_kept env st bh)
    /\ (forall txid t,
        txFirstSeenTime st' !! txid = Some t <->
        txFirstSeenTime st !! txid = Some t
        /\ (forall bh txs, blockTxs st !! bh = Some txs ->
                           block_locked env st bh -> txid ∉ txs)
        /\ cleanup_tx_erases env txid = Returns false).
Proof.
  intros env st st' Hc Hsync Hdue.
  apply Cleanup_cases in Hc
    as [(_ & [Hs | Hi]) | (_ & _ & bt & fs1 & fs & Hb & Ht & ->)];
    [congruence|lia|].
  cbn [set_lastCleanupTime set_tracker blockTxs txFirstSeenTime].
  apply cleanup_block_fold in Hb as [Hbt Hfs1].
  pose proof (cleanup_tx_fold _ _ _ _ Ht) as Hfs.
  split.
  - intros bh txs. rewrite Hbt. split; intros [Hk Hkept]; (split; [exact Hk|]).
    + apply Hkept. exists txs. apply In_map_to_list. exact Hk.
    + intros _. exact Hkept.
  - intros txid t. rewrite Hfs, Hfs1. split.
    + intros [[Hk Hall] He]. split; [exact Hk|]. split.
      * intros bh txs Hin. apply Hall, In_map_to_list. exact Hin.
      * apply He. exists t. apply In_map_to_list. apply Hfs1. split; [exact Hk|].
        exact Hall.
    + intros (Hk & Hall & He). split; [split; [exact Hk|]|intros _; exact He].
      intros bh txs Hin. apply Hall, In_map_to_list. exact Hin.
Qed.


(** ** The scheduled closures and the enforcer *)

Lemma EnforceBestChainLock_unbound env st :
  bestChainLockBlockIndex st = None ->
  EnforceBestChainLock env st = Returns (st, []).
Proof.
  intros Hnone. unfold EnforceBestChainLock. rewrite Hnone.
  destruct (isEnforced st); reflexivity.
Qed.

(** X21: the enforcement inside a scheduled closure finds nothing to
    enforce.  Each closure runs [CheckActiveState] first, which clears the
    bound block index entry, so the [EnforceBestChainLock] that follows
    returns at once: the closure scheduled by [ProcessNewChainLock] amounts
    to the reset alone, with no call on the chain engine, and the other two
    amount to the reset followed by [TrySignChainTip]. *)
Theorem scheduled_enforcement_is_void :
  forall (env : Env) (st : State),
    run_task env TaskEnforce st = Returns (CheckActiveState st, [])
    /\ run_task env TaskPeriodic st = TrySignChainTip env (CheckActiveState st)
    /\ events_of (run_task env TaskTipUpdate st)
       = events_of (TrySignChainTip env (CheckActiveState st)).
Proof.
  intros env st. unfold run_task.
  rewrite (EnforceBestChainLock_unbound env (CheckActiveState st) eq_refl).
  cbn [run_bind fst snd app].
  split; [reflexivity|].
  destruct (TrySignChainTip env (CheckActiveState st)) as [[s3 e3]|];
    split; reflexivity.
Qed.

(** X22: when a scheduled closure runs as one step, with no other call of
    the handler between the calls it is made of, nothing is locked when it
    returns: [bestChainLock] is the sentinel, and [HasChainLock] and
    [HasConflictingChainLock] answer [false] for every height and hash. *)
Theorem nothing_locked_after_scheduled_closure :
  forall (env : Env) (t : Task) (st st' : State) (evs : list Event),
    run_task env t st = Returns (st', evs) ->
    bestChainLock st' = CChainLockSig_default
    /\ forall h bh,
        HasChainLock st' h bh = false
        /\ HasConflictingChainLock st' h bh = Returns false.
Proof.
  intros env t st st' evs Hrun.
  apply run_task_registry in Hrun. unfold registry in Hrun.
  injection Hrun as _ Hb _ Hi. split; [exact Hb|].
  intros h bh. unfold HasChainLock, HasConflictingChainLock,
    InternalHasChainLock, InternalHasConflictingChainLock.
  rewrite Hi. destruct (isEnforced st'); split; reflexivity.
Qed.

Lemma CBlockIndex_branch_ind (P : CBlockIndex -> Prop) :
  (forall h n, P (mkCBlockIndex h n None)) ->
  (forall h n q, P q -> P (mkCBlockIndex h n (Some q))) ->
  forall p, P p.
Proof.
  intros Hroot Hstep.
  fix ind 1. intros [h n [q|]]; [apply Hstep, ind|apply Hroot].
Qed.

Lemma invalidate_siblings_blocks env pindex range evs :
  invalidate_siblings env pindex range = Returns evs ->
  notified evs = []
  /\ forall b, In b (invalidated evs) ->
       exists jt, In jt range /\ same_index jt pindex = false
                  /\ BlockIndex_find env (GetBlockHash jt) = Some b.
Proof.
  revert evs. induction range as [|jt rest IH]; intros evs; cbn [invalidate_siblings].
  - intros [= <-]. split; [reflexivity|]. intros b [].
  - destruct (same_index jt pindex) eqn:Hs.
    + intros H. destruct (IH _ H) as [Hn Hb]. split; [exact Hn|].
      intros b Hin. destruct (Hb b Hin) as (j & Hj & Hr). exists j. split; [right|]; auto.
    + unfold DoInvalidateBlock.
      destruct (BlockIndex_find env (GetBlockHash jt)) as [p2|] eqn:Hf;
        cbn [run_bind]; [|discriminate].
      destruct (InvalidateBlock env p2); cbn [negb run_bind]; [|discriminate].
      destruct (invalidate_siblings env pindex rest) as [more|];
        cbn [run_bind]; [|discriminate].
      intros [= <-]. destruct (IH more eq_refl) as [Hn Hb].
      unfold notified, invalidated in *. cbn. split; [exact Hn|].
      intros b [<-|Hin].
      * exists jt. split; [left; reflexivity|]. auto.
      * destruct (Hb b Hin) as (j & Hj & Hr). exists j. split; [right|]; auto.
Qed.

Lemma invalidate_walk_blocks env cur :
  forall evs,
    invalidate_walk env cur = Returns evs ->
    notified evs = []
    /\ (ChainActive_Contains env cur = true -> evs = [])
    /\ forall b, In b (invalidated evs) ->
         exists q prev jt,
           In q (branch cur)
           /\ ChainActive_Contains env q = false
           /\ pprev q = Some prev
           /\ In jt (PrevBlockIndex env (GetBlockHash prev))
           /\ same_index jt q = false
           /\ BlockIndex_find env (GetBlockHash jt) = Some b.
Proof.
  induction cur as [h n|h n q IH] using CBlockIndex_branch_ind; intros evs;
    cbn [invalidate_walk pprev].
  - destruct (ChainActive_Contains env _); [|discriminate].
    intros [= <-]. repeat split; auto. intros b [].
  - destruct (ChainActive_Contains env (mkCBlockIndex h n (Some q))) eqn:Hc.
    + intros [= <-]. repeat split; auto. intros b [].
    + destruct (invalidate_siblings env _ _) as [e1|] eqn:H1; cbn [run_bind];
        [|discriminate].
      destruct (invalidate_walk env q) as [e2|] eqn:H2; cbn [run_bind];
        [|discriminate].
      intros [= <-].
      apply invalidate_siblings_blocks in H1 as [Hn1 Hb1].
      destruct (IH e2 eq_refl) as (Hn2 & _ & Hb2).
      unfold notified, invalidated in *. rewrite !omap_app, Hn1, Hn2.
      split; [reflexivity|]. split; [discriminate|].
      intros b Hin. apply in_app_or in Hin as [Hin|Hin].
      * destruct (Hb1 b Hin) as (jt & Hj & Hs & Hf).
        exists (mkCBlockIndex h n (Some q)), q, jt.
        repeat split; auto. left. reflexivity.
      * destruct (Hb2 b Hin) as (q' & prev & jt & Hq & Hrest).
        exists q', prev, jt. split; [right; exact Hq|exact Hrest].
Qed.

(** What [EnforceBestChainLock] does when it gets past its two guards. *)
Lemma EnforceBestChainLock_cases env st st' evs :
  EnforceBestChainLock env st = Returns (st', evs) ->
  (st' = st /\ notified evs = []
   /\ (isEnforced st = false \/ bestChainLockBlockIndex st = None -> evs = []))
  \/ (exists cur,
         isEnforced st = true
         /\ bestChainLockBlockIndex st = Some cur
         /\ same_index_opt (lastNotifyChainLockBlockIndex st) (Some cur) = false
         /\ st' = set_lastNotify (Some cur) st
         /\ notified evs = [cur]).
Proof.
  unfold EnforceBestChainLock.
  destruct (isEnforced st); cbn [negb]; [|intros [= <- <-]; left; auto].
  destruct (bestChainLockBlockIndex st) as [cur|] eqn:Hcur;
    [|intros [= <- <-]; left; auto].
  destruct (invalidate_walk env cur) as [walk|] eqn:Hw; cbn [run_bind];
    [|discriminate].
  apply invalidate_walk_blocks in Hw as (Hwn & _).
  set (reset := if negb (IsValid env cur) then _ else _).
  assert (Hreset : forall r, reset = Returns r -> notified r = []).
  { subst reset. destruct (IsValid env cur); cbn [negb].
    - intros r [= <-]; auto.
    - destruct (BlockIndex_find env _); [|discriminate]. intros r [= <-]; auto. }
  destruct reset as [r|]; cbn [run_bind]; [|discriminate].
  pose proof (Hreset r eq_refl) as Hrn.
  set (activate := if negb (same_index_opt _ _)
                   then EvActivateBestChain :: _ else _).
  assert (Han : notified activate = []).
  { subst activate. destruct (negb (same_index_opt _ _)); [|auto].
    destruct (ActivateBestChain env); auto. }
  destruct (same_index_opt (lastNotifyChainLockBlockIndex st) (Some cur)) eqn:Hl;
    cbn [negb andb].
  - intros [= <- <-]. left. unfold notified in *.
    rewrite !omap_app, Hwn, Hrn, Han. repeat split; auto.
    intros [?|?]; discriminate.
  - match goal with
    | |- (if ?b then _ else _) = _ -> _ => destruct b
    end; intros [= <- <-].
    + right. exists cur. unfold notified in *.
      rewrite !omap_app, Hwn, Hrn, Han. auto.
    + left. unfold notified in *.
      rewrite !omap_app, Hwn, Hrn, Han. repeat split; auto.
      intros [?|?]; discriminate.
Qed.

(** X23: [NotifyChainLock] is not repeated.  A call of
    [EnforceBestChainLock] notifies at most once, for the bound entry, and
    records it; the next call, whatever the chain engine answers, does not
    notify again as long as the same entry is bound. *)
Theorem EnforceBestChainLock_notifies_once :
  forall (env env2 : Env) (st st' st2 : State) (evs evs2 : list Event),
    EnforceBestChainLock env st = Returns (st', evs) ->
    EnforceBestChainLock env2 st' = Returns (st2, evs2) ->
    (notified evs = [] \/ exists cur, bestChainLockBlockIndex st = Some cur
                                      /\ notified evs = [cur])
    /\ (notified evs <> [] -> notified evs2 = []).
Proof.
  intros env env2 st st' st2 evs evs2 H1 H2.
  apply EnforceBestChainLock_cases in H1
    as [(_ & Hn & _) | (cur & _ & Hcur & _ & -> & Hn)].
  - split; [left; exact Hn|]. contradiction.
  - split; [right; eauto|]. intros _.
    apply EnforceBestChainLock_cases in H2
      as [(_ & Hn2 & _) | (cur2 & _ & Hcur2 & Hl & _ & _)]; [exact Hn2|].
    cbn in Hcur2, Hl. rewrite Hcur in Hcur2. injection Hcur2 as <-.
    unfold same_index in Hl. rewrite Z.eqb_refl in Hl. discriminate.
Qed.

(** X24: the enforcer invalidates only side branches.  Every block that
    [EnforceBestChainLock] invalidates is an entry of the block index filed
    under the predecessor of some block of the locked branch that is off the
    active chain, and is not that block of the branch; when the locked block
    is on the active chain already, nothing is invalidated. *)
Theorem EnforceBestChainLock_invalidates_siblings :
  forall (env : Env) (st st' : State) (evs : list Event),
    EnforceBestChainLock env st = Returns (st', evs) ->
    index_by_hash env ->
    forall b, In b (invalidated evs) ->
      exists cur q prev jt,
        bestChainLockBlockIndex st = Some cur
        /\ ChainActive_Contains env cur = false
        /\ In q (branch cur)
        /\ ChainActive_Contains env q = false
        /\ pprev q = Some prev
        /\ In jt (PrevBlockIndex env (GetBlockHash prev))
        /\ GetBlockHash b = GetBlockHash jt
        /\ GetBlockHash b <> GetBlockHash q.
Proof.
  intros env st st' evs Hrun Hidx b. revert Hrun. unfold EnforceBestChainLock.
  destruct (isEnforced st); cbn [negb]; [|intros [= <- <-] []].
  destruct (bestChainLockBlockIndex st) as [cur|] eqn:Hcur;
    [|intros [= <- <-] []].
  destruct (invalidate_walk env cur) as [walk|] eqn:Hw; cbn [run_bind];
    [|discriminate].
  apply invalidate_walk_blocks in Hw as (_ & Hon & Hwb).
  set (reset := if negb (IsValid env cur) then _ else _).
  assert (Hreset : forall r, reset = Returns r -> invalidated r = []).
  { subst reset. destruct (IsValid env cur); cbn [negb].
    - intros r [= <-]; auto.
    - destruct (BlockIndex_find env _); [|discriminate]. intros r [= <-]; auto. }
  destruct reset as [r|]; cbn [run_bind]; [|discriminate].
  pose proof (Hreset r eq_refl) as Hri.
  set (activate := if negb (same_index_opt _ _)
                   then EvActivateBestChain :: _ else _).
  assert (Hai : invalidated activate = []).
  { subst activate. destruct (negb (same_index_opt _ _)); [|auto].
    destruct (ActivateBestChain env); auto. }
  assert (Hall : forall tail, invalidated tail = [] ->
             In b (invalidated (walk ++ r ++ activate ++ tail)) ->
             In b (invalidated walk)).
  { intros tail Htail. unfold invalidated in *.
    rewrite !omap_app, Hri, Hai, Htail, !app_nil_r. auto. }
  assert (Hgoal : In b (invalidated walk) ->
    exists cur0 q prev jt,
      Some cur = Some cur0 /\ ChainActive_Contains env cur0 = false
      /\ In q (branch cur0) /\ ChainActive_Contains env q = false
      /\ pprev q = Some prev
      /\ In jt (PrevBlockIndex env (GetBlockHash prev))
      /\ GetBlockHash b = GetBlockHash jt
      /\ GetBlockHash b <> GetBlockHash q).
  { intros Hin.
    destruct (Hwb b Hin) as (q & prev & jt & Hq & Hc & Hp & Hj & Hs & Hf).
    exists cur, q, prev, jt. apply Hidx in Hf.
    destruct (ChainActive_Contains env cur) eqn:Hcc.
    - rewrite (Hon eq_refl) in Hin. destruct Hin.
    - repeat split; auto.
      unfold same_index in Hs. apply Z.eqb_neq in Hs. congruence. }
  destruct (_ && _); intros [= <- <-] Hin; apply Hgoal.
  - apply (Hall [EvNotifyChainLock cur]); [reflexivity|]. exact Hin.
  - apply (Hall []); [reflexivity|]. rewrite !app_nil_r. exact Hin.
Qed.


(** ** Executions with overlapping calls *)

(** [ProcessNewChainLock] is its first lock scope followed, when the tests
    let the call go on, by the rest. *)
Lemma ProcessNewChainLock_phases env from clsig hash st :
  ProcessNewChainLock env from clsig hash st
  = (if (ProcessNewChainLock_test env clsig hash st).2
     then ProcessNewChainLock_finish env from clsig hash
            (ProcessNewChainLock_test env clsig hash st).1
     else Returns ((ProcessNewChainLock_test env clsig hash st).1, [])).
Proof.
  unfold ProcessNewChainLock, ProcessNewChainLock_test, ProcessNewChainLock_finish.
  destruct (seenChainLocks st !! hash); [reflexivity|].
  cbv zeta. destruct (negb _ && _); reflexivity.
Qed.

Lemma ProcessNewChainLock_test_effect env clsig hash st :
  registry (ProcessNewChainLock_test env clsig hash st).1 = registry st
  /\ (forall k, k <> hash ->
        seenChainLocks (ProcessNewChainLock_test env clsig hash st).1 !! k
        = seenChainLocks st !! k)
  /\ (is_Some (seenChainLocks st !! hash) ->
        ProcessNewChainLock_test env clsig hash st = (st, false))
  /\ (seenChainLocks st !! hash = None ->
        seenChainLocks (ProcessNewChainLock_test env clsig hash st).1 !! hash
        = Some (GetTimeMillis env))
  /\ ((ProcessNewChainLock_test env clsig hash st).2 = true ->
        seenChainLocks st !! hash = None
        /\ (nHeight (bestChainLock st) = -1
            \/ nHeight (bestChainLock st) < nHeight clsig)).
Proof.
  unfold ProcessNewChainLock_test.
  destruct (seenChainLocks st !! hash) as [t|] eqn:Hseen.
  { cbn. repeat split; auto; try discriminate. }
  cbn [set_seenChainLocks bestChainLock].
  assert (Hno : ~ is_Some (@None Z)) by (intros [? [=]]).
  destruct (Z.eqb_spec (nHeight (bestChainLock st)) (-1)) as [Hs|Hs];
    cbn [negb andb];
    [|destruct (Z.leb_spec (nHeight clsig) (nHeight (bestChainLock st)))
        as [Hle|Hlt]].
  all: cbn; repeat split; auto; try discriminate; try contradiction;
    try (intros k Hk; apply lookup_insert_ne; congruence);
    try (intros; apply lookup_insert_eq).
Qed.

Lemma ProcessNewChainLock_finish_effect env from clsig hash st st' evs :
  ProcessNewChainLock_finish env from clsig hash st = Returns (st', evs) ->
  seenChainLocks st' = seenChainLocks st
  /\ length (verified evs) = 1%nat
  /\ ((relayed evs = [] /\ registry st' = registry st)
      \/ (relayed evs = [hash]
          /\ bestChainLock st' = clsig
          /\ bestChainLockHash st' = hash
          /\ (bestChainLockWithKnownBlock st' = bestChainLockWithKnownBlock st
              \/ bestChainLockWithKnownBlock st' = clsig))).
Proof.
  unfold ProcessNewChainLock_finish.
  branches; intros [= <- <-]; cbn; auto 10.
Qed.







(** *** The seen-set along an execution *)

Lemma ProcessNewChainLock_seen env from clsig hash st st' evs :
  ProcessNewChainLock env from clsig hash st = Returns (st', evs) ->
  (forall k, k <> hash -> seenChainLocks st' !! k = seenChainLocks st !! k)
  /\ is_Some (seenChainLocks st' !! hash)
  /\ (length (verified evs) <= 1)%nat
  /\ (is_Some (seenChainLocks st !! hash) -> verified evs = []).
Proof.
  intros Hp. rewrite ProcessNewChainLock_phases in Hp.
  destruct (ProcessNewChainLock_test_effect env clsig hash st)
    as (_ & Hother & Hdup & Hnew & Hgo).
  assert (Hin : is_Some (seenChainLocks (ProcessNewChainLock_test env clsig hash st).1
                         !! hash)).
  { destruct (seenChainLocks st !! hash) as [t|] eqn:Hseen.
    - rewrite (Hdup ltac:(eauto)). cbn. rewrite Hseen. eauto.
    - rewrite (Hnew eq_refl). eauto. }
  destruct (ProcessNewChainLock_test env clsig hash st).2 eqn:Htest.
  - apply ProcessNewChainLock_finish_effect in Hp as (Hseen & Hlen & _).
    rewrite Hseen. repeat split; auto; [lia|].
    intros [t Ht]. destruct (Hgo eq_refl) as [Hnone _]. congruence.
  - injection Hp as <- <-. repeat split; auto.
Qed.

Lemma Cleanup_seen env st st1 k t :
  Cleanup env st = Returns st1 ->
  seenChainLocks st1 !! k = Some t -> seenChainLocks st !! k = Some t.
Proof.
  intros Hc.
  apply Cleanup_cases in Hc
    as [[-> _] | (_ & _ & bt & fs1 & fs & _ & _ & ->)]; [auto|].
  cbn. intros H. apply map_lookup_filter_Some in H as [H _]. exact H.
Qed.

Lemma TrySignChainTip_seen env st st' evs k t :
  TrySignChainTip env st = Returns (st', evs) ->
  seenChainLocks st' !! k = Some t -> seenChainLocks st !! k = Some t.
Proof.
  intros Ht. apply TrySignChainTip_state in Ht as (st1 & Hc & Hst).
  intros Hk. apply (Cleanup_seen _ _ _ _ _ Hc).
  destruct Hst as [-> | (h & r & m & ->)]; exact Hk.
Qed.

(** A call that does not reach [ProcessNewChainLock] adds nothing to the
    seen-set. *)
Lemma exec_no_ingest_seen env c st st' evs k t :
  ingest c st = None ->
  exec env c st = Returns (st', evs) ->
  seenChainLocks st' !! k = Some t -> seenChainLocks st !! k = Some t.
Proof.
  intros Hin Hex.
  destruct (evicts c) eqn:Hev.
  - destruct c; try discriminate; cbn [exec] in Hex.
    + eapply TrySignChainTip_seen; exact Hex.
    + destruct (Cleanup env st) as [s1|] eqn:Hc; cbn [run_bind] in Hex;
        [|discriminate].
      injection Hex as <- <-. eapply Cleanup_seen; exact Hc.
    + revert Hex. unfold run_task.
      destruct (EnforceBestChainLock env (CheckActiveState st)) as [[s2 e2]|] eqn:He;
        cbn [run_bind fst snd]; [|discriminate].
      apply EnforceBestChainLock_frame in He as (_ & Hs & _). cbn in Hs.
      destruct t0; try discriminate.
      * destruct (TrySignChainTip env s2) as [[s3 e3]|] eqn:Ht; cbn [run_bind];
          [|discriminate].
        intros [= <- <-] Hk. rewrite <- Hs.
        eapply TrySignChainTip_seen; [exact Ht|exact Hk].
      * destruct (TrySignChainTip env s2) as [[s3 e3]|] eqn:Ht; cbn [run_bind];
          [|discriminate].
        intros [= <- <-] Hk. rewrite <- Hs.
        eapply TrySignChainTip_seen; [exact Ht|exact Hk].
  - apply (exec_no_ingest _ _ _ _ _ Hin) in Hex as (_ & _ & _ & Hs).
    rewrite (Hs Hev). auto.
Qed.

Lemma in_flight_for_app h l (p : InFlight) :
  in_flight_for h (l ++ [p])
  = (in_flight_for h l + if (p.2 =? h)%Z then 1 else 0)%nat.
Proof.
  unfold in_flight_for. rewrite List.filter_app, length_app. cbn.
  destruct (p.2 =? h)%Z; reflexivity.
Qed.

Lemma in_flight_for_delete h l :
  forall i (p : InFlight),
    l !! i = Some p ->
    in_flight_for h l
    = ((if (p.2 =? h)%Z then 1 else 0) + in_flight_for h (delete i l))%nat.
Proof.
  unfold in_flight_for.
  induction l as [|q l IH]; intros [|i] p; simpl; try discriminate.
  - intros [= ->]. destruct (p.2 =? h)%Z; reflexivity.
  - intros Hi. specialize (IH i p Hi).
    destruct (q.2 =? h)%Z, (p.2 =? h)%Z; simpl in *; lia.
Qed.

(** One step uses up what it verifies: as long as [h] is not evicted, the
    verifier calls a step makes for [h] come out of the budget. *)
Lemma step_budget h env s cfg cfg' evs :
  flight_seen h cfg ->
  step env s cfg = Returns (cfg', evs) ->
  (is_Some (seenChainLocks cfg.1 !! h) -> is_Some (seenChainLocks cfg'.1 !! h)) ->
  flight_seen h cfg'
  /\ (step_verifies h env s cfg + verification_budget h cfg'
      <= verification_budget h cfg)%nat.
Proof.
  destruct cfg as [st flight]. unfold flight_seen, verification_budget.
  cbn [fst snd]. intros [Hone Hin].
  assert (Hno : ~ is_Some (@None Z)) by (intros [? [=]]).
  destruct s as [c | from clsig hash | i]; cbn [step step_verifies fst snd].
  - destruct (exec env c st) as [[st' e]|] eqn:Hex; cbn [run_bind fst snd];
      [|discriminate].
    intros [= <- <-] Hstay. cbn [fst snd] in *.
    destruct (ingest c st) as [[[from clsig] hash]|] eqn:Hing.
    + rewrite (exec_ingest _ _ _ _ _ _ Hing) in Hex.
      apply ProcessNewChainLock_seen in Hex as (Hother & Hnow & Hlen & Hdup).
      destruct (Z.eqb_spec hash h) as [-> | Hne].
      * destruct Hnow as [t' Ht']. rewrite Ht'.
        destruct (seenChainLocks st !! h) as [t|] eqn:Hseen.
        -- rewrite (Hdup ltac:(eauto)). cbn. split; [split; eauto|lia].
        -- assert (in_flight_for h flight = 0)%nat as Hz.
           { destruct (in_flight_for h flight); [reflexivity|].
             exfalso. apply Hno, Hin. lia. }
           rewrite Hz. split; [split; [lia|eauto]|lia].
      * rewrite (Hother h ltac:(congruence)).
        split; [split; auto|]. destruct (seenChainLocks st !! h); lia.
    + split; [split; [exact Hone|intros; apply Hstay; auto]|].
      destruct (seenChainLocks st !! h) as [t|] eqn:E2.
      * destruct Hstay as [t' ->]; [eauto|]. lia.
      * destruct (seenChainLocks st' !! h) as [t'|] eqn:E1; [|lia].
        pose proof (exec_no_ingest_seen _ _ _ _ _ _ _ Hing Hex E1). congruence.
  - intros [= <- <-] _. cbn [fst snd].
    destruct (ProcessNewChainLock_test_effect env clsig hash st)
      as (_ & Hother & Hdup & Hnew & Hgo).
    destruct (Z.eqb_spec hash h) as [-> | Hne].
    + destruct (seenChainLocks st !! h) as [t|] eqn:Hseen.
      * rewrite (Hdup ltac:(eauto)). cbn [fst snd]. rewrite Hseen.
        split; [split; auto|lia].
      * assert (in_flight_for h flight = 0)%nat as Hz.
        { destruct (in_flight_for h flight); [reflexivity|].
          exfalso. apply Hno, Hin. lia. }
        rewrite (Hnew eq_refl).
        destruct (ProcessNewChainLock_test env clsig h st).2.
        -- rewrite in_flight_for_app, Hz. cbn [snd]. rewrite Z.eqb_refl.
           split; [split; [lia|eauto]|lia].
        -- rewrite Hz. split; [split; [lia|eauto]|lia].
    + rewrite (Hother h ltac:(congruence)).
      assert (Hcount : in_flight_for h
                (if (ProcessNewChainLock_test env clsig hash st).2
                 then flight ++ [(from, clsig, hash)] else flight)
              = in_flight_for h flight).
      { destruct (ProcessNewChainLock_test env clsig hash st).2; [|reflexivity].
        rewrite in_flight_for_app. cbn [snd].
        destruct (Z.eqb_spec hash h); [contradiction|lia]. }
      rewrite Hcount. split; [split; auto|].
      destruct (seenChainLocks st !! h); lia.
  - destruct (flight !! i) as [[[from clsig] hash]|] eqn:Hi.
    + destruct (ProcessNewChainLock_finish env from clsig hash st)
        as [[st' e]|] eqn:Hfin; cbn [run_bind fst snd]; [|discriminate].
      intros [= <- <-] _. cbn [fst snd].
      apply ProcessNewChainLock_finish_effect in Hfin as (Hseen & Hlen & _).
      rewrite Hseen, Hlen.
      pose proof (in_flight_for_delete h flight i _ Hi) as Hcount. cbn [snd] in Hcount.
      destruct (Z.eqb_spec hash h) as [-> | Hne].
      * destruct (Hin ltac:(lia)) as [t Ht]. rewrite Ht.
        split; [split; [lia|eauto]|lia].
      * split; [split; [lia|intros; apply Hin; lia]|].
        destruct (seenChainLocks st !! h); lia.
    + intros [= <- <-] _. cbn [fst snd].
      split; [split; auto|]. destruct (seenChainLocks st !! h); lia.
Qed.

Lemma stays_seen_cons h env s rest cfg cfg' evs :
  stays_seen h ((env, s) :: rest) cfg = true ->
  step env s cfg = Returns (cfg', evs) ->
  (is_Some (seenChainLocks cfg.1 !! h) -> is_Some (seenChainLocks cfg'.1 !! h))
  /\ stays_seen h rest cfg' = true.
Proof.
  cbn [stays_seen]. intros Hs Hstep. rewrite Hstep in Hs.
  apply andb_prop in Hs as [Himp Hrest]. split; [|exact Hrest].
  intros Hseen.
  destruct (bool_decide (is_Some (seenChainLocks cfg.1 !! h))) eqn:E.
  - cbn in Himp. apply bool_decide_eq_true_1 in Himp. exact Himp.
  - apply bool_decide_eq_false_1 in E. contradiction.
Qed.

Lemma verifications_budget h steps :
  forall cfg,
    flight_seen h cfg ->
    stays_seen h steps cfg = true ->
    (verifications h steps cfg <= verification_budget h cfg)%nat.
Proof.
  induction steps as [|[env s] rest IH]; intros cfg Hfl Hstay.
  - cbn. lia.
  - cbn [verifications].
    destruct (step env s cfg) as [[cfg' evs]|] eqn:Hstep; [|lia].
    destruct (stays_seen_cons _ _ _ _ _ _ _ Hstay Hstep) as [Hkeep Hrest].
    destruct (step_budget _ _ _ _ _ _ Hfl Hstep Hkeep) as [Hfl' Hle].
    specialize (IH cfg' Hfl' Hrest). lia.
Qed.

Lemma step_seen_mono env s cfg cfg' evs :
  evicts_step s = false ->
  step env s cfg = Returns (cfg', evs) ->
  forall k, is_Some (seenChainLocks cfg.1 !! k) -> is_Some (seenChainLocks cfg'.1 !! k).
Proof.
  destruct cfg as [st flight]. intros Hev.
  destruct s as [c | from clsig hash | i]; cbn [step evicts_step fst snd] in *.
  - destruct (exec env c st) as [[st' e]|] eqn:Hex; cbn [run_bind fst snd];
      [|discriminate].
    intros [= <- <-] k Hk. cbn [fst].
    destruct (ingest c st) as [[[from clsig] hash]|] eqn:Hin.
    + rewrite (exec_ingest _ _ _ _ _ _ Hin) in Hex.
      apply ProcessNewChainLock_effect in Hex as (_ & Hmono & _). auto.
    + apply (exec_no_ingest _ _ _ _ _ Hin) in Hex as (_ & _ & _ & Hs).
      rewrite (Hs Hev). exact Hk.
  - intros [= <- <-] k Hk. cbn [fst].
    destruct (ProcessNewChainLock_test_effect env clsig hash st)
      as (_ & Hother & Hdup & Hnew & _).
    destruct (decide (k = hash)) as [-> | Hne].
    + destruct (seenChainLocks st !! hash) as [t|] eqn:Hseen.
      * rewrite (Hdup ltac:(eauto)). cbn. rewrite Hseen. eauto.
      * rewrite (Hnew eq_refl). eauto.
    + rewrite (Hother k Hne). exact Hk.
  - destruct (flight !! i) as [[[from clsig] hash]|].
    + destruct (ProcessNewChainLock_finish env from clsig hash st)
        as [[st' e]|] eqn:Hfin; cbn [run_bind fst snd]; [|discriminate].
      intros [= <- <-] k Hk. cbn [fst].
      apply ProcessNewChainLock_finish_effect in Hfin as (Hseen & _).
      rewrite Hseen. exact Hk.
    + intros [= <- <-] k Hk. exact Hk.
Qed.

(** Without a call that runs [Cleanup] nothing is evicted. *)
Lemma stays_seen_without_cleanup h steps :
  forall cfg,
    Forall (fun es : Env * Step => evicts_step es.2 = false) steps ->
    stays_seen h steps cfg = true.
Proof.
  induction steps as [|[env s] rest IH]; intros cfg Hsteps; [reflexivity|].
  inversion Hsteps as [|? ? Hs Hrest]; subst. cbn [snd] in Hs. cbn [stays_seen].
  destruct (step env s cfg) as [[cfg' evs]|] eqn:Hstep; [|reflexivity].
  rewrite (IH cfg' Hrest), andb_true_r.
  destruct (bool_decide (is_Some (seenChainLocks cfg.1 !! h))) eqn:E; [|reflexivity].
  apply bool_decide_eq_true_1 in E. cbn.
  apply bool_decide_eq_true_2. eapply step_seen_mono; eassumption.
Qed.

(** ** Dedup *)

(** C5: the first lock scope of [ProcessNewChainLock], with which every
    call begins, records a hash that is not in the seen-set there with the
    current time, whatever the rest of the call does; the call then returns
    with the hash recorded unless the assertion of the conflict check
    fails.  A call with a hash that is in the seen-set returns from its
    first scope, with the whole state (hence the registry) as it was and
    without any event (no verification, no relay).  So over any execution,
    with calls overlapping or not, in which the hash is not evicted from
    the seen-set, the verifier runs at most once for it. *)
Theorem C5_dedup_by_hash :
  forall (h : uint256),
    (forall (env : Env) (from : NodeId) (clsig : CChainLockSig) (st : State),
        ProcessNewChainLock env from clsig h st
        = (if (ProcessNewChainLock_test env clsig h st).2
           then ProcessNewChainLock_finish env from clsig h
                  (ProcessNewChainLock_test env clsig h st).1
           else Returns ((ProcessNewChainLock_test env clsig h st).1, [])))
    /\ (forall (env : Env) (from : NodeId) (clsig : CChainLockSig) (st : State),
        seenChainLocks st !! h = None ->
        seenChainLocks (ProcessNewChainLock_test env clsig h st).1 !! h
          = Some (GetTimeMillis env)
        /\ (InternalHasConflictingChainLock st (nHeight clsig) (blockHash clsig)
              <> Aborts ->
            exists st' evs,
              ProcessNewChainLock env from clsig h st = Returns (st', evs)
              /\ seenChainLocks st' !! h = Some (GetTimeMillis env)))
    /\ (forall (env : Env) (from : NodeId) (clsig : CChainLockSig) (st : State),
        is_Some (seenChainLocks st !! h) ->
        ProcessNewChainLock_test env clsig h st = (st, false)
        /\ ProcessNewChainLock env from clsig h st = Returns (st, []))
    /\ (forall (steps : list (Env * Step)) (st : State),
        stays_seen h steps (st, []) = true ->
        (verifications h steps (st, []) <= 1)%nat).
Proof.
  intros h. split; [|split; [|split]].
  - intros env from clsig st. apply ProcessNewChainLock_phases.
  - intros env from clsig st Hnew.
    destruct (ProcessNewChainLock_test_effect env clsig h st)
      as (_ & _ & _ & Hins & _).
    split; [exact (Hins Hnew)|].
    intros Hassert. unfold ProcessNewChainLock. rewrite Hnew.
    change (InternalHasConflictingChainLock
              (set_seenChainLocks (<[h:=GetTimeMillis env]> (seenChainLocks st)) st)
              (nHeight clsig) (blockHash clsig))
      with (InternalHasConflictingChainLock st (nHeight clsig) (blockHash clsig)).
    destruct (InternalHasConflictingChainLock st (nHeight clsig) (blockHash clsig))
      as [conflict|]; [|contradiction].
    cbn [run_bind].
    branches; eexists _, _; (split; [reflexivity|cbn; apply lookup_insert_eq]).
  - intros env from clsig st Hseen.
    destruct (ProcessNewChainLock_test_effect env clsig h st)
      as (_ & _ & Hdup & _).
    split; [exact (Hdup Hseen)|].
    rewrite ProcessNewChainLock_phases, (Hdup Hseen). reflexivity.
  - intros steps st Hstay.
    pose proof (verifications_budget h steps (st, [])) as Hle.
    unfold flight_seen, verification_budget in Hle. cbn [fst snd] in Hle.
    assert (Hz : in_flight_for h [] = 0%nat) by reflexivity.
    rewrite Hz in Hle.
    specialize (Hle ltac:(split; [lia|intros; lia]) Hstay).
    destruct (seenChainLocks st !! h); lia.
Qed.

(** ** Height order *)



(** ** The known lock along an execution *)


End Handler.

(** ** The handler on concrete inputs *)

(** C1: the signer does not consult the block-tx tracker.  On a synced
    masternode with the spork on, whose tip C (height 2) is tracked with
    transaction 7 first seen at the current time, [GetBlockTxs] yields the
    txid, [IsTxSafeForMining] reports it unsafe, and [TrySignChainTip] still
    records the proposal and calls [AsyncSignIfMember] for C. *)
Theorem C1_tip_signed_despite_unsafe_tx :
  GetBlockTxs (sample_env true) 12 state_fresh_tx
    = Returns (state_fresh_tx, Some {[ 7 ]}, [])
  /\ IsTxSafeForMining (sample_env true) state_fresh_tx 7 = false
  /\ match TrySignChainTip stub_SerializeHash_pair walk_ancestor
             (sample_env true) state_fresh_tx with
     | Returns (st', evs) =>
         sign_requests evs = [(stub_SerializeHash_pair "clsig" 2, 12)]
         /\ lastSignedHeight st' = 2
         /\ lastSignedMsgHash st' = 12
     | Aborts => False
     end.
Proof.
  split; [reflexivity|]. split; [reflexivity|].
  vm_compute. repeat split; reflexivity.
Qed.



(** After a reset the stored hash is the null hash, so it is the
    serialization hash of the stored lock only for a serializer that sends
    the sentinel lock to zero. *)
Lemma reset_hash_is_canonical_iff (SerializeHash : CChainLockSig -> uint256) st :
  bestChainLockHash (CheckActiveState st)
    = SerializeHash (bestChainLock (CheckActiveState st))
  <-> SerializeHash CChainLockSig_default = uint256_null.
Proof. cbn. split; congruence. Qed.

(** C4 as written fails in the initial state and after a reset:
    the stored hash is the all-zero hash, not the serialization hash of the
    sentinel lock. *)
Lemma C4_counterexample :
  bestChainLockHash (initial_state true true)
    <> stub_SerializeHash (bestChainLock (initial_state true true))
  /\ bestChainLockHash (CheckActiveState state_locked_C)
    <> stub_SerializeHash (bestChainLock (CheckActiveState state_locked_C)).
Proof. split; vm_compute; discriminate. Qed.

(** *** Instances of the theorems *)

Lemma C6_witness :
  HasConflictingChainLock walk_ancestor state_locked_C 1 21 = Returns true.
Proof.
  apply (C6_conflict_safety walk_ancestor state_locked_C 1 11 21);
    [discriminate | reflexivity].
Defined.

Lemma C7_witness :
  InternalHasChainLock walk_ancestor state_locked_C 1 11 = (11 =? GetBlockHash block_B)
  /\ InternalHasConflictingChainLock walk_ancestor state_locked_C 1 11
     = Returns (negb (11 =? GetBlockHash block_B)).
Proof.
  destruct (C7_lock_predicates_by_cases walk_ancestor state_locked_C 1 11)
    as [_ Hbound].
  destruct (Hbound block_C eq_refl eq_refl) as (_ & _ & Hbelow).
  apply (Hbelow ltac:(reflexivity) block_B eq_refl).
Defined.

Lemma C8_witness :
  IsTxSafeForMining (sample_env true) state_fresh_tx 7 = true
  <-> exists t, txFirstSeenTime state_fresh_tx !! 7 = Some t
                /\ WAIT_FOR_ISLOCK_TIMEOUT <= GetAdjustedTime (sample_env true) - t.
Proof.
  destruct (C8_IsTxSafeForMining_spec (sample_env true) state_fresh_tx 7)
    as (_ & Hon & _).
  - intros t Ht. vm_compute in Ht. injection Ht as <-.
    unfold int64_range. cbn. lia.
  - apply Hon. reflexivity.
Defined.

Lemma C9_witness :
  exists st' evs,
    ProcessNewChainLock stub_SerializeHash_pair walk_ancestor rejecting_env 3
      (clsig_at 2 12) (stub_SerializeHash (clsig_at 2 12)) (initial_state true true)
    = Returns (st', evs)
    /\ registry st' = registry (initial_state true true)
    /\ relayed evs = []
    /\ verified evs = [(2, stub_SerializeHash_pair CLSIG_REQUESTID_PREFIX 2, 12, 1)]
    /\ (0 <= 3 -> misbehaved evs = [(3, 10)])
    /\ (3 = -1 -> misbehaved evs = []).
Proof.
  apply (C9_invalid_signature_dropped stub_SerializeHash_pair walk_ancestor
           rejecting_env 3 (clsig_at 2 12)
           (stub_SerializeHash (clsig_at 2 12)) (initial_state true true));
    [reflexivity | left; reflexivity | reflexivity].
Defined.

Lemma C5_witness :
  (verifications stub_SerializeHash stub_SerializeHash_pair walk_ancestor
     (stub_SerializeHash (clsig_at 2 12)) repeated_steps
     (initial_state true true, []) <= 1)%nat
  /\ (exists st' evs,
         ProcessNewChainLock stub_SerializeHash_pair walk_ancestor
           (sample_env true) 3 (clsig_at 2 12)
           (stub_SerializeHash (clsig_at 2 12)) (initial_state true true)
         = Returns (st', evs)
         /\ seenChainLocks st' !! stub_SerializeHash (clsig_at 2 12) = Some 1000)
  /\ ProcessNewChainLock stub_SerializeHash_pair walk_ancestor
       (sample_env true) 3 (clsig_at 2 12)
       (stub_SerializeHash (clsig_at 2 12)) state_locked_C
     = Returns (state_locked_C, []).
Proof.
  destruct (C5_dedup_by_hash stub_SerializeHash stub_SerializeHash_pair
              walk_ancestor (stub_SerializeHash (clsig_at 2 12)))
    as (_ & Hfirst & Hdup & Honce).
  split; [|split].
  - apply (Honce repeated_steps (initial_state true true)).
    vm_compute. reflexivity.
  - apply (Hfirst (sample_env true) 3 (clsig_at 2 12) (initial_state true true));
      [reflexivity | vm_compute; discriminate].
  - apply (Hdup (sample_env true) 3 (clsig_at 2 12) state_locked_C).
    eexists. vm_compute. reflexivity.
Defined.



Lemma C4_witness :
  exists st' evs,
    run stub_SerializeHash stub_SerializeHash_pair walk_ancestor
      [(sample_env true, CallProcessMessage 3 "clsig" (clsig_at 1 11));
       (sample_env true, CallScheduled TaskEnforce);
       (sample_env true,
        CallProcessNewChainLock 3 (clsig_at 2 12) (stub_SerializeHash (clsig_at 2 12)))]
      (initial_state true true) = Returns (st', evs)
    /\ best_hash_consistent stub_SerializeHash st'.
Proof.
  destruct (run stub_SerializeHash stub_SerializeHash_pair walk_ancestor
      [(sample_env true, CallProcessMessage 3 "clsig" (clsig_at 1 11));
       (sample_env true, CallScheduled TaskEnforce);
       (sample_env true,
        CallProcessNewChainLock 3 (clsig_at 2 12) (stub_SerializeHash (clsig_at 2 12)))]
      (initial_state true true)) as [[st' evs]|] eqn:Hrun.
  - exists st', evs. split; [reflexivity|].
    eapply (C4_best_hash_consistent stub_SerializeHash stub_SerializeHash_pair
              walk_ancestor true true); [|exact Hrun].
    repeat constructor.
  - vm_compute in Hrun. discriminate.
Defined.

(** *** Instances of the further theorems *)

Lemma sample_index_by_hash (known : bool) : index_by_hash (sample_env known).
Proof.
  intros h p. unfold sample_env. destruct known; cbn [BlockIndex_find];
    [|discriminate].
  intros Hfind. apply find_some in Hfind as [_ Heq].
  apply Z.eqb_eq. exact Heq.
Qed.

Lemma make_env_index_by_hash millis secs disk tip :
  index_by_hash (make_env millis secs disk tip).
Proof. exact (sample_index_by_hash true). Qed.

Lemma X1_witness :
  exists st' evs,
    ProcessNewChainLock stub_SerializeHash_pair walk_ancestor (sample_env true) 3
      (clsig_at 2 12) (stub_SerializeHash (clsig_at 2 12)) (initial_state true true)
    = Returns (st', evs)
    /\ bestChainLock st' = clsig_at 2 12
    /\ relayed evs = [stub_SerializeHash (clsig_at 2 12)]
    /\ bestChainLockBlockIndex st' = Some block_C.
Proof.
  destruct (ProcessNewChainLock_commits_above_best stub_SerializeHash_pair
              walk_ancestor (sample_env true) 3 (clsig_at 2 12)
              (stub_SerializeHash (clsig_at 2 12)) (initial_state true true))
    as (st' & evs & Hrun & Hb & _ & Hr & _ & Hbind);
    [reflexivity | cbn; lia | intros p; discriminate | cbn; lia | reflexivity |].
  exists st', evs. cbn in Hbind. destruct Hbind as (_ & Hi & _). auto.
Defined.


Lemma X3_witness :
  exists st' evs,
    ProcessNewChainLock stub_SerializeHash_pair walk_ancestor (sample_env true) 3
      (clsig_at 2 12) (stub_SerializeHash (clsig_at 2 12)) (initial_state true true)
    = Returns (st', evs)
    /\ forall h ret,
        GetChainLockByHash st' h ret
        = (if h =? stub_SerializeHash (clsig_at 2 12)
           then (true, clsig_at 2 12) else (false, ret)).
Proof.
  eexists _, _. split; [vm_compute; reflexivity|].
  eapply (GetChainLockByHash_after_commit stub_SerializeHash_pair walk_ancestor
           (sample_env true) 3 (clsig_at 2 12)
           (stub_SerializeHash (clsig_at 2 12)) (initial_state true true));
    [vm_compute; reflexivity | vm_compute; discriminate].
Defined.

Lemma X4_witness :
  exists st' evs,
    ProcessNewChainLock stub_SerializeHash_pair walk_ancestor (sample_env true) 3
      (clsig_at 2 12) (stub_SerializeHash (clsig_at 2 12)) (initial_state true true)
    = Returns (st', evs)
    /\ HasChainLock walk_ancestor st' 2 12 = true
    /\ HasConflictingChainLock walk_ancestor st' 2 13 = Returns true.
Proof.
  eexists _, _. split; [vm_compute; reflexivity|].
  destruct (lock_visible_after_binding stub_SerializeHash_pair walk_ancestor
              (sample_env true) 3 (clsig_at 2 12)
              (stub_SerializeHash (clsig_at 2 12)) (initial_state true true)
              _ _ (sample_index_by_hash true) eq_refl
              ltac:(vm_compute; reflexivity) ltac:(vm_compute; discriminate))
    as [Hlock Hconf].
  split; [exact Hlock|]. apply Hconf. discriminate.
Defined.

Lemma X5_witness :
  exists st' evs,
    ProcessNewChainLock stub_SerializeHash_pair walk_ancestor (sample_env false) 3
      (clsig_at 2 12) (stub_SerializeHash (clsig_at 2 12)) (initial_state true true)
    = Returns (st', evs)
    /\ bestChainLockBlockIndex st' = None
    /\ bestChainLockBlockIndex (AcceptedBlockHeader block_C st').1 = Some block_C.
Proof.
  eexists _, _. split; [vm_compute; reflexivity|]. split; [reflexivity|].
  destruct (late_header_binds stub_SerializeHash_pair walk_ancestor
              (sample_env false) 3 (clsig_at 2 12)
              (stub_SerializeHash (clsig_at 2 12)) (initial_state true true)
              _ _ block_C
              ltac:(vm_compute; reflexivity) ltac:(vm_compute; discriminate)
              eq_refl)
    as (_ & _ & Hbind & _).
  apply Hbind. reflexivity.
Defined.

Lemma X6_witness :
  exists st' evs,
    run stub_SerializeHash stub_SerializeHash_pair walk_ancestor
      late_header_calls
      (initial_state true true) = Returns (st', evs)
    /\ known_block_bound st'.
Proof.
  eexists _, _. split; [vm_compute; reflexivity|].
  eapply (bound_entry_is_known_block stub_SerializeHash stub_SerializeHash_pair
            walk_ancestor true true late_header_calls);
    [|vm_compute; reflexivity].
  repeat (constructor; [apply sample_index_by_hash|]). constructor.
Defined.


Lemma X9_witness :
  exists st' evs,
    TrySignChainTip stub_SerializeHash_pair walk_ancestor (sample_env true)
      state_fresh_tx = Returns (st', evs)
    /\ isSporkActive state_fresh_tx = true
    /\ lastSignedHeight st' = 2
    /\ lastSignedMsgHash st' = 12.
Proof.
  edestruct (TrySignChainTip_guards stub_SerializeHash_pair walk_ancestor
               (sample_env true) state_fresh_tx) as [Hyes _];
    [vm_compute; reflexivity|].
  destruct Hyes as (_ & _ & _ & Hs & _ & _ & _ & Hh & _ & Hm);
    [vm_compute; discriminate|].
  eexists _, _. split; [vm_compute; reflexivity|].
  split; [exact Hs|]. split; [exact Hh|exact Hm].
Defined.

Lemma X10_witness :
  exists st' evs st2 evs2,
    TrySignChainTip stub_SerializeHash_pair walk_ancestor (sample_env true)
      state_fresh_tx = Returns (st', evs)
    /\ TrySignChainTip stub_SerializeHash_pair walk_ancestor (sample_env true)
         st' = Returns (st2, evs2)
    /\ sign_requests evs2 = [].
Proof.
  eexists _, _, _, _. split; [vm_compute; reflexivity|].
  split; [vm_compute; reflexivity|].
  eapply (TrySignChainTip_signs_height_once stub_SerializeHash_pair walk_ancestor
            (sample_env true) (sample_env true) state_fresh_tx);
    [vm_compute; reflexivity | vm_compute; discriminate | reflexivity
    | left; vm_compute; reflexivity].
Defined.

Lemma X11_witness :
  exists st' evs,
    TrySignChainTip stub_SerializeHash_pair walk_ancestor (sample_env true)
      state_fresh_tx = Returns (st', evs)
    /\ HandleNewRecoveredSig stub_SerializeHash stub_SerializeHash_pair
         walk_ancestor (sample_env true)
         (mkCRecoveredSig (stub_SerializeHash_pair "clsig" 2) 12 1) st'
       = ProcessNewChainLock stub_SerializeHash_pair walk_ancestor
           (sample_env true) (-1) (clsig_at 2 12)
           (stub_SerializeHash (clsig_at 2 12)) st'.
Proof.
  eexists _, _. split; [vm_compute; reflexivity|].
  eapply (recovered_sig_after_signing_is_ingested stub_SerializeHash
            stub_SerializeHash_pair walk_ancestor (sample_env true)
            (sample_env true) state_fresh_tx);
    vm_compute; reflexivity.
Defined.

Lemma X12_witness :
  exists st' evs,
    HandleNewRecoveredSig stub_SerializeHash stub_SerializeHash_pair
      walk_ancestor rejecting_env (mkCRecoveredSig 5 6 1) state_locked_C
    = Returns (st', evs)
    /\ misbehaved evs = [] /\ st' = state_locked_C /\ evs = [].
Proof.
  eexists _, _. split; [vm_compute; reflexivity|].
  destruct (HandleNewRecoveredSig_ignores_foreign stub_SerializeHash
              stub_SerializeHash_pair walk_ancestor rejecting_env
              (mkCRecoveredSig 5 6 1) state_locked_C _ _
              ltac:(vm_compute; reflexivity)) as [Hm Hsame].
  split; [exact Hm|]. apply Hsame. right. left. discriminate.
Defined.

Lemma X15_witness :
  IsTxSafeForMining (make_env 0 1700 None block_C)
    (SyncTransaction (sample_env true) tx_7 (Some block_C) (initial_state true true))
    7 = true.
Proof.
  apply (synced_tx_safe_after_timeout (sample_env true)
           (make_env 0 1700 None block_C) tx_7 (Some block_C)
           (initial_state true true));
    try reflexivity.
  unfold int64_range. cbn. lia.
Defined.

Lemma X17_witness :
  exists st' txs evs,
    GetBlockTxs (make_env 1000 1000 (Some block_on_disk) block_C) 11
      (initial_state true true) = Returns (st', Some txs, evs)
    /\ (forall txid,
           txid ∈ txs <->
           exists tx, In tx (vtx block_on_disk) /\ tx_GetHash tx = txid
                      /\ tx_IsCoinBase tx = false /\ tx_vin_empty tx = false)
    /\ blockTxs st' !! 11 = Some txs
    /\ (forall txid,
           txFirstSeenTime st' !! txid
           = match txFirstSeenTime (initial_state true true) !! txid with
             | Some t => Some t
             | None => if decide (txid ∈ txs) then Some (nTime block_on_disk)
                       else None
             end).
Proof.
  apply (GetBlockTxs_backfills (make_env 1000 1000 (Some block_on_disk) block_C)
           11 (initial_state true true) block_B block_on_disk);
    reflexivity.
Defined.

Lemma X18_witness :
  exists st',
    Cleanup walk_ancestor (make_env 4000000 1000 None block_C) state_locked_B'
    = Returns st'
    /\ lastCleanupTime st' = 4000000
    /\ AlreadyHave st' (stub_SerializeHash (clsig_at 1 21)) = false.
Proof.
  eexists. split; [vm_compute; reflexivity|].
  destruct (Cleanup_evicts_old_hashes walk_ancestor
              (make_env 4000000 1000 None block_C) state_locked_B' _
              ltac:(vm_compute; reflexivity) eq_refl
              ltac:(vm_compute; discriminate)) as (_ & Hold & Htime).
  split; [exact Htime|].
  apply (Hold _ 900); [vm_compute; reflexivity | vm_compute; discriminate].
Defined.

Lemma X19_witness :
  exists st',
    Cleanup walk_ancestor (make_env 4000000 1000 None block_C) state_locked_B'
    = Returns st'
    /\ Cleanup walk_ancestor (make_env 4010000 1010 None block_C) st'
       = Returns st'.
Proof.
  eexists. split; [vm_compute; reflexivity|].
  apply (Cleanup_throttled walk_ancestor (make_env 4000000 1000 None block_C)
           (make_env 4010000 1010 None block_C) state_locked_B');
    [vm_compute; reflexivity | reflexivity | vm_compute; discriminate
    | left; vm_compute; reflexivity].
Defined.

Lemma X20_witness :
  exists st',
    Cleanup walk_ancestor (make_env 4000000 1000 None block_C) state_locked_B'
    = Returns st'
    /\ forall bh txs,
        blockTxs st' !! bh = Some txs <->
        blockTxs state_locked_B' !! bh = Some txs
        /\ block_kept walk_ancestor (make_env 4000000 1000 None block_C)
             state_locked_B' bh.
Proof.
  eexists. split; [vm_compute; reflexivity|].
  apply (Cleanup_prunes_tracker walk_ancestor
           (make_env 4000000 1000 None block_C) state_locked_B');
    [vm_compute; reflexivity | reflexivity | vm_compute; discriminate].
Defined.

Lemma X22_witness :
  exists st' evs,
    run_task stub_SerializeHash_pair walk_ancestor (sample_env true) TaskEnforce
      state_locked_C = Returns (st', evs)
    /\ bestChainLock st' = CChainLockSig_default
    /\ HasChainLock walk_ancestor st' 2 12 = false.
Proof.
  eexists _, _. split; [vm_compute; reflexivity|].
  destruct (nothing_locked_after_scheduled_closure stub_SerializeHash_pair
              walk_ancestor (sample_env true) TaskEnforce state_locked_C _ _
              ltac:(vm_compute; reflexivity)) as [Hb Hnone].
  split; [exact Hb|]. apply Hnone.
Defined.

Lemma X23_witness :
  exists st' evs st2 evs2,
    EnforceBestChainLock walk_ancestor (make_env 1000 1000 None block_B')
      state_locked_B' = Returns (st', evs)
    /\ EnforceBestChainLock walk_ancestor (make_env 1000 1000 None block_B') st'
       = Returns (st2, evs2)
    /\ notified evs = [block_B']
    /\ notified evs2 = [].
Proof.
  eexists _, _, _, _. split; [vm_compute; reflexivity|].
  split; [vm_compute; reflexivity|]. split; [reflexivity|].
  eapply (EnforceBestChainLock_notifies_once walk_ancestor
            (make_env 1000 1000 None block_B') (make_env 1000 1000 None block_B')
            state_locked_B');
    [vm_compute; reflexivity | vm_compute; reflexivity | vm_compute; discriminate].
Defined.

Lemma X24_witness :
  exists st' evs,
    EnforceBestChainLock walk_ancestor (make_env 1000 1000 None block_B')
      state_locked_B' = Returns (st', evs)
    /\ invalidated evs = [block_B]
    /\ exists cur q prev jt,
        bestChainLockBlockIndex state_locked_B' = Some cur
        /\ ChainActive_Contains (make_env 1000 1000 None block_B') cur = false
        /\ In q (branch cur)
        /\ ChainActive_Contains (make_env 1000 1000 None block_B') q = false
        /\ pprev q = Some prev
        /\ In jt (PrevBlockIndex (make_env 1000 1000 None block_B')
                    (GetBlockHash prev))
        /\ GetBlockHash block_B = GetBlockHash jt
        /\ GetBlockHash block_B <> GetBlockHash q.
Proof.
  eexists _, _. split; [vm_compute; reflexivity|]. split; [reflexivity|].
  apply (EnforceBestChainLock_invalidates_siblings walk_ancestor
           (make_env 1000 1000 None block_B') state_locked_B' _ _
           ltac:(vm_compute; reflexivity)
           (make_env_index_by_hash 1000 1000 None block_B')).
  vm_compute. left. reflexivity.
Defined.
